(** * News aggregator: ranking, deduplication and provider fallback

    A shallow embedding of the pipeline core of the news aggregator
    (src/news_aggregator): the data model of [models.py] and [config.py],
    the three deduplication passes of [deduplicator.py], the scoring model
    and the ranker of [processing/ranker.py], the provider metrics, selector
    and registry of [providers/], and the per-article fallback walk of
    [providers/multi_provider_summarizer.py].

    Conventions of the embedding:
    - Python [int] is [Z]; [str] is [string]; [float] is the kernel's
      binary64 [float], so float arithmetic rounds as it does in CPython;
    - a naive [datetime] is the number of microseconds since an epoch, a
      [timedelta] a number of microseconds, both in [Z];
    - a [dict] keyed by strings is a [gmap string _], a [set] a [gset];
    - a loop over a list that mutates local state is a [fold_left] of its
      body over that state;
    - a call that can raise returns a [result];
    - the clock ([datetime.now()]), the similarity ratio of the fuzzywuzzy
      package and the replies of the remote providers are inputs. *)

From Stdlib Require Import ZArith Floats Ascii String.
From stdpp Require Import gmap strings list sorting.

Set Warnings "-inexact-float".
Set Default Proof Using "Type".

(** ** Python primitives used by the code *)

Module Py.

(** [str.lower()], on the ASCII letters. *)
Definition lower_ascii (c : ascii) : ascii :=
  let n := nat_of_ascii c in
  if Nat.leb 65 n && Nat.leb n 90 then ascii_of_nat (n + 32) else c.

Fixpoint lower (s : string) : string :=
  match s with
  | EmptyString => EmptyString
  | String c s' => String (lower_ascii c) (lower s')
  end.

(** [needle in hay] for two strings. *)
Fixpoint contains (needle hay : string) : bool :=
  String.prefix needle hay ||
  match hay with
  | EmptyString => false
  | String _ hay' => contains needle hay'
  end.

(** [l[:m]]: a negative bound counts from the end of the list. *)
Definition slice_to {A} (m : Z) (l : list A) : list A :=
  if (0 <=? m)%Z then take (Z.to_nat m) l
  else take (length l - Z.to_nat (- m)) l.

(** [list.sort(key=...)] is a stable sort that compares keys with [<]
    only.  [lt k1 k2] is the comparison [k1 < k2] of two keys; for
    [reverse=True] the caller passes the flipped comparison, which is
    what reversing, sorting and reversing again computes. *)
Section Sort.
Context {A K : Type} (lt : K → K → bool) (key : A → K).

Fixpoint sort_insert (x : A) (l : list A) : list A :=
  match l with
  | [] => [x]
  | y :: l' => if lt (key y) (key x) then y :: sort_insert x l' else x :: l
  end.

Definition sort_by (l : list A) : list A := foldr sort_insert [] l.
End Sort.

(** Floats.  [float_of_Z] is the conversion of a (small) int. *)
Definition float_of_Z (z : Z) : float :=
  if (z <? 0)%Z then PrimFloat.opp (PrimFloat.of_uint63 (Uint63.of_Z (- z)))
  else PrimFloat.of_uint63 (Uint63.of_Z z).

(** The integer nearest to [n / d], ties to the even one ([0 < d]). *)
Definition half_even (n d : Z) : Z :=
  let q := (n / d)%Z in
  match (2 * (n mod d) ?= d)%Z with
  | Lt => q
  | Gt => (q + 1)%Z
  | Eq => if Z.even q then q else (q + 1)%Z
  end.

(** The integer nearest to [scale * x], for the exact value of the
    float [x]; [None] for an infinity or a NaN. *)
Definition round_scaled (scale : Z) (x : float) : option Z :=
  match Prim2SF x with
  | S754_zero _ => Some 0%Z
  | S754_finite s m e =>
      let n := (Z.pos m * scale)%Z in
      let k := if (0 <=? e)%Z then (n * 2 ^ e)%Z else half_even n (2 ^ (- e)) in
      Some (if s then (- k)%Z else k)
  | _ => None
  end.

(** [round(x, 3)]: the decimal with three places nearest to [x], as a
    float. *)
Definition round3 (x : float) : float :=
  match round_scaled 1000 x with
  | Some k => PrimFloat.div (float_of_Z k) 1000%float
  | None => x
  end.

(** [int(round(x))]. *)
Definition int_round (x : float) : Z := default 0%Z (round_scaled 1 x).

(** Exceptions and the result of a call that can raise. *)
Inductive exn : Type :=
  | ValueError (msg : string)
  | KeyError (msg : string)
  | ProviderAPIError (msg : string)
  | OtherError (msg : string).

Inductive result (A : Type) : Type :=
  | Ok (a : A)
  | Raise (e : exn).
Global Arguments Ok {A} a.
Global Arguments Raise {A} e.

End Py.

(** ** models.py and config.py *)

Module Models.

Record Article : Type := mkArticle {
  url : string;
  title : string;
  content : string;
  published_at : Z;
  topic : string;
  source : string
}.

(** [Article.__eq__]: two articles are equal when their urls are. *)
Definition article_eq (a b : Article) : bool := bool_decide (url a = url b).

Record RankedArticle : Type := mkRankedArticle {
  article : Article;
  quality_score : float
}.

Record SummarizedArticle : Type := mkSummarizedArticle {
  base : Article;
  summary_bullets : list string;
  audience_level : string;
  summarization_failed : bool
}.

(** [SummarizedArticle.from_article]; [summary_bullets or []] is the
    list itself. *)
Definition from_article (a : Article) (bullets : list string)
    (audience : string) (failed : bool) : SummarizedArticle :=
  mkSummarizedArticle a bullets audience failed.

Record ArticleHistoryEntry : Type := mkEntry {
  entry_url : string;
  entry_title : string;
  sent_at : Z
}.

Record TopicConfig : Type := mkTopicConfig {
  topic_audience_level : string;
  include_context : bool;
  context_text : option string;
  min_quality_score : float;
  max_articles_per_day : Z;
  trusted_sources : list string
}.

Record ProviderConfig : Type := mkProviderConfig {
  provider_id : string;
  provider_type : string;
  api_key : string;
  model : string;
  enabled : bool;
  priority : Z;
  timeout : Z;
  max_tokens : Z;
  temperature : float;
  input_cost_per_1M_tokens : float;
  output_cost_per_1M_tokens : float
}.

(** [ProviderConfig.estimated_cost_per_request], with its default
    reference token counts. *)
Definition estimated_cost_per_request (c : ProviderConfig) : float :=
  let input_cost := (1500 / 1000000 * input_cost_per_1M_tokens c)%float in
  let output_cost := (200 / 1000000 * output_cost_per_1M_tokens c)%float in
  (input_cost + output_cost)%float.

End Models.

Import Py Models.

(** ** difflib.SequenceMatcher and fuzzywuzzy's fuzz.ratio

    The deduplicator is parametric in [fuzz.ratio]; this module is the
    pure-Python implementation of it (fuzzywuzzy 0.18 over the standard
    library's [difflib]), used to evaluate the code on concrete titles. *)

Module Fuzz.

Section Matcher.
Context {A : Type} `{EqDecision A}.

(** Elements that the autojunk heuristic of [__chain_b] takes out of
    [b2j]: in a sequence of 200 elements or more, those that occur
    more than [n // 100 + 1] times. *)
Definition popular (b : list A) (x : A) : bool :=
  Nat.leb 200 (length b) &&
  Nat.ltb (length b / 100 + 1) (length (filter (λ y, y = x) b)).

Section Longest.
(** [pop] is the popularity test of the whole second sequence; the
    two lists are the slices [a[alo:ahi]] and [b[blo:bhi]]. *)
Variable pop : A → bool.

(** [newj2len] for the element [x] of [a], from [j2len]. *)
Definition new_row (x : A) (b : list A) (j2len : list nat) : list nat :=
  zip_with (λ y k, if bool_decide (x = y) && negb (pop y) then S k else 0)
           b (0 :: j2len).

Fixpoint scan_row (i j : nat) (row : list nat) (best : nat * nat * nat)
    : nat * nat * nat :=
  match row with
  | [] => best
  | k :: row' =>
      scan_row i (S j) row'
        (if Nat.ltb best.2 k then (S i - k, S j - k, k) else best)
  end.

Fixpoint scan (i : nat) (a b : list A) (j2len : list nat)
    (best : nat * nat * nat) : nat * nat * nat :=
  match a with
  | [] => best
  | x :: a' =>
      let row := new_row x b j2len in
      scan (S i) a' b row (scan_row i 0 row best)
  end.

(** The two loops that extend the block over equal elements. *)
Fixpoint extend_back (fuel : nat) (a b : list A) (m : nat * nat * nat)
    : nat * nat * nat :=
  match fuel, m with
  | S fuel', (S i, S j, k) =>
      match a !! i, b !! j with
      | Some x, Some y =>
          if bool_decide (x = y) then extend_back fuel' a b (i, j, S k) else m
      | _, _ => m
      end
  | _, _ => m
  end.

Fixpoint extend_forward (fuel : nat) (a b : list A) (m : nat * nat * nat)
    : nat * nat * nat :=
  match fuel, m with
  | S fuel', (i, j, k) =>
      match a !! (i + k), b !! (j + k) with
      | Some x, Some y =>
          if bool_decide (x = y) then extend_forward fuel' a b (i, j, S k) else m
      | _, _ => m
      end
  | _, _ => m
  end.

Definition find_longest_match (a b : list A) : nat * nat * nat :=
  let m := scan 0 a b (replicate (length b) 0) (0, 0, 0) in
  extend_forward (length a) a b (extend_back (length a) a b m).

(** The total size of the blocks of [get_matching_blocks]: the
    longest block, then the blocks to its left and to its right. *)
Fixpoint matches (fuel : nat) (a b : list A) : nat :=
  match fuel with
  | 0 => 0
  | S fuel' =>
      let '(i, j, k) := find_longest_match a b in
      if Nat.eqb k 0 then 0
      else k
        + (if Nat.ltb 0 i && Nat.ltb 0 j
           then matches fuel' (take i a) (take j b) else 0)
        + (if Nat.ltb (i + k) (length a) && Nat.ltb (j + k) (length b)
           then matches fuel' (drop (i + k) a) (drop (j + k) b) else 0)
  end.
End Longest.

(** [SequenceMatcher(None, a, b).ratio()]. *)
Definition sequence_ratio (a b : list A) : float :=
  let total := length a + length b in
  if Nat.eqb total 0 then 1%float
  else (2 * float_of_Z (Z.of_nat (matches (popular b) (length a) a b))
        / float_of_Z (Z.of_nat total))%float.
End Matcher.

(** [fuzz.ratio(s1, s2)]: 100 for equal strings, 0 when one is empty,
    else [int(round(100 * ratio))]. *)
Definition ratio (s1 s2 : string) : Z :=
  if bool_decide (s1 = s2) then 100%Z
  else if Nat.eqb (String.length s1) 0 || Nat.eqb (String.length s2) 0 then 0%Z
  else int_round (100 * sequence_ratio (list_ascii_of_string s1)
                                       (list_ascii_of_string s2))%float.

End Fuzz.

(** ** deduplicator.py *)

Module Dedup.

Record Deduplicator : Type := mkDeduplicator {
  history : gmap string ArticleHistoryEntry;
  similarity_threshold : Z
}.

(** [ArticleHistory.is_sent]. *)
Definition is_sent (h : gmap string ArticleHistoryEntry) (u : string) : bool :=
  bool_decide (u ∈ dom h).

(** [list.remove(x)]: drops the first element equal to [x], where
    equality is [Article.__eq__]. *)
Fixpoint list_remove (x : Article) (l : list Article) : list Article :=
  match l with
  | [] => []
  | y :: l' => if article_eq y x then l' else y :: list_remove x l'
  end.

Section Passes.
(** [fuzz.ratio] of the fuzzywuzzy package: an integer in 0..100. *)
Variable fuzz_ratio : string → string → Z.
Variable self : Deduplicator.

(** Body of the loop of [_deduplicate_by_url], on the pair
    [(seen_urls, unique_articles)]. *)
Definition url_step (st : gset string * list Article) (a : Article)
    : gset string * list Article :=
  if decide (url a ∈ st.1) then st
  else ({[url a]} ∪ st.1, st.2 ++ [a]).

Definition _deduplicate_by_url (articles : list Article) : list Article :=
  (fold_left url_step articles (∅, [])).2.

(** The inner loop of [_deduplicate_by_title]: the first accepted
    article whose title is similar to the candidate's. *)
Fixpoint first_similar (a : Article) (unique_articles : list Article)
    : option Article :=
  match unique_articles with
  | [] => None
  | u :: rest =>
      if (similarity_threshold self <? fuzz_ratio (lower (title a)) (lower (title u)))%Z
      then Some u
      else first_similar a rest
  end.

(** Body of the outer loop of [_deduplicate_by_title]. *)
Definition title_step (unique_articles : list Article) (a : Article)
    : list Article :=
  match first_similar a unique_articles with
  | Some u =>
      if (published_at a <? published_at u)%Z
      then list_remove u unique_articles ++ [a]
      else unique_articles
  | None => unique_articles ++ [a]
  end.

Definition _deduplicate_by_title (articles : list Article) : list Article :=
  fold_left title_step articles [].

Definition _filter_sent (articles : list Article) : list Article :=
  filter (λ a, is_sent (history self) (url a) = false) articles.

Definition deduplicate (articles : list Article) : list Article :=
  _filter_sent (_deduplicate_by_title (_deduplicate_by_url articles)).

End Passes.

End Dedup.

(** ** processing/ranker.py *)

Module Ranker.

Definition CONTENT_WEIGHT : float := 0.4%float.
Definition RECENCY_WEIGHT : float := 0.3%float.
Definition SOURCE_WEIGHT : float := 0.3%float.

(** [timedelta(hours=h)], in microseconds. *)
Definition hours (h : Z) : Z := (h * 3600 * 1000000)%Z.

(** The branches of [_score_content_depth], on [len(article.content)]. *)
Definition content_depth (content_length : Z) : float :=
  if (content_length <? 200)%Z then
    (float_of_Z content_length / 400)%float
  else if (content_length <? 500)%Z then
    (0.5 + float_of_Z (content_length - 200) / 1000)%float
  else
    let extra_length := Z.min (content_length - 500) 1000 in
    (0.8 + float_of_Z extra_length / 5000)%float.

(** The branches of [_score_recency], on [now - article.published_at]. *)
Definition recency (age : Z) : float :=
  if (age <? hours 24)%Z then 1%float
  else if (age <? hours 48)%Z then 0.5%float
  else if (age <? hours 72)%Z then 0.2%float
  else 0%float.

Section Scoring.
(** [self.topics]. *)
Variable topics : gmap string TopicConfig.
(** The reading of the clock, [datetime.now()], at the call. *)
Variable now : Z.

Definition _score_content_depth (a : Article) : float :=
  content_depth (Z.of_nat (String.length (content a))).

Definition _score_recency (a : Article) : float :=
  recency (now - published_at a).

Definition _score_source_trust (a : Article) : float :=
  match topics !! topic a with
  | None => 0.5%float
  | Some topic_config =>
      match trusted_sources topic_config with
      | [] => 0.5%float
      | trusted =>
          let source_lower := lower (source a) in
          if existsb (λ t, contains (lower t) source_lower
                           || contains source_lower (lower t)) trusted
          then 1%float else 0.5%float
      end
  end.

Definition calculate_score (a : Article) : float :=
  let content_score := _score_content_depth a in
  let recency_score := _score_recency a in
  let source_score := _score_source_trust a in
  let total_score :=
    (content_score * CONTENT_WEIGHT
     + recency_score * RECENCY_WEIGHT
     + source_score * SOURCE_WEIGHT)%float in
  round3 total_score.
End Scoring.

Section RankAndFilter.
Variable topics : gmap string TopicConfig.
(** [clock i] is the reading of the clock when the article at index
    [i] of the input is scored. *)
Variable clock : nat → Z.

(** [articles_by_topic[topic].append(ranked_article)] on a
    [defaultdict(list)], which keeps its keys in insertion order. *)
Fixpoint bucket_append (t : string) (ra : RankedArticle)
    (groups : list (string * list RankedArticle))
    : list (string * list RankedArticle) :=
  match groups with
  | [] => [(t, [ra])]
  | (t', l) :: groups' =>
      if decide (t' = t) then (t', l ++ [ra]) :: groups'
      else (t', l) :: bucket_append t ra groups'
  end.

Definition group_by_topic (ranked : list RankedArticle)
    : list (string * list RankedArticle) :=
  fold_left (λ groups ra, bucket_append (topic (article ra)) ra groups)
            ranked [].

(** Body of the loop over [articles_by_topic.items()]. *)
Definition topic_step (filtered_articles : list RankedArticle)
    (item : string * list RankedArticle) : list RankedArticle :=
  match topics !! item.1 with
  | None => filtered_articles
  | Some topic_config =>
      let kept :=
        filter (λ ra, PrimFloat.leb (min_quality_score topic_config)
                                    (quality_score ra) = true) item.2 in
      let sorted := sort_by (λ k1 k2, PrimFloat.ltb k2 k1) quality_score kept in
      filtered_articles ++ slice_to (max_articles_per_day topic_config) sorted
  end.

Definition rank_and_filter (articles : list Article) : list RankedArticle :=
  match articles with
  | [] => []
  | _ =>
      let ranked_articles :=
        imap (λ i a, mkRankedArticle a (calculate_score topics (clock i) a))
             articles in
      fold_left topic_step (group_by_topic ranked_articles) []
  end.
End RankAndFilter.

End Ranker.

(** ** providers/metrics.py *)

Module Metrics.

Record ProviderMetrics : Type := mkProviderMetrics {
  metrics_provider_id : string;
  total_requests : Z;
  successful_requests : Z;
  failed_requests : Z;
  total_input_tokens : Z;
  total_output_tokens : Z;
  total_latency_seconds : float;
  consecutive_failures : Z
}.

(** [ProviderMetrics(provider_id)]: every counter at its default. *)
Definition fresh (id : string) : ProviderMetrics :=
  mkProviderMetrics id 0 0 0 0 0 0%float 0.

Definition record_success (self : ProviderMetrics) (latency : float)
    (input_tokens output_tokens : Z) : ProviderMetrics :=
  {| metrics_provider_id := metrics_provider_id self;
     total_requests := total_requests self + 1;
     successful_requests := successful_requests self + 1;
     failed_requests := failed_requests self;
     total_input_tokens := total_input_tokens self + input_tokens;
     total_output_tokens := total_output_tokens self + output_tokens;
     total_latency_seconds := (total_latency_seconds self + latency)%float;
     consecutive_failures := 0 |}.

Definition record_failure (self : ProviderMetrics) (error : string)
    : ProviderMetrics :=
  {| metrics_provider_id := metrics_provider_id self;
     total_requests := total_requests self + 1;
     successful_requests := successful_requests self;
     failed_requests := failed_requests self + 1;
     total_input_tokens := total_input_tokens self;
     total_output_tokens := total_output_tokens self;
     total_latency_seconds := total_latency_seconds self;
     consecutive_failures := consecutive_failures self + 1 |}.

(** A call of one of the two recording methods, and a history of calls
    applied in order to a metrics object. *)
Inductive call : Type :=
  | Success (latency : float) (input_tokens output_tokens : Z)
  | Failure (error : string).

Definition apply_call (m : ProviderMetrics) (c : call) : ProviderMetrics :=
  match c with
  | Success latency i o => record_success m latency i o
  | Failure error => record_failure m error
  end.

Definition run (calls : list call) (m : ProviderMetrics) : ProviderMetrics :=
  fold_left apply_call calls m.

Definition is_failure (c : call) : bool :=
  match c with Failure _ => true | Success _ _ _ => false end.

(** The number of [record_failure] calls since the most recent
    [record_success] (all of them when there is none). *)
Fixpoint failures_at_end (reversed : list call) : nat :=
  match reversed with
  | c :: rest => if is_failure c then S (failures_at_end rest) else 0
  | [] => 0
  end.

Definition failures_since_success (calls : list call) : nat :=
  failures_at_end (reverse calls).

End Metrics.

(** ** providers/selector.py and providers/registry.py *)

Module Providers.

Record ProviderSelector : Type := mkProviderSelector {
  strategy : string;
  provider_order : list string
}.

Definition _build_provider_order (strategy : string)
    (configs : list ProviderConfig) : list string :=
  let enabled_configs := filter (λ c, enabled c = true) configs in
  let sorted :=
    if decide (strategy = "priority") then
      sort_by Z.ltb priority enabled_configs
    else if decide (strategy = "cost") then
      sort_by PrimFloat.ltb estimated_cost_per_request enabled_configs
    else if decide (strategy = "performance") then
      sort_by Z.ltb priority enabled_configs
    else
      sort_by Z.ltb priority enabled_configs in
  provider_id <$> sorted.

(** [ProviderSelector.__init__]. *)
Definition new_selector (provider_configs : list ProviderConfig)
    (strategy : string) : ProviderSelector :=
  mkProviderSelector strategy (_build_provider_order strategy provider_configs).

(** [get_provider_chain]: a copy of the order. *)
Definition get_provider_chain (self : ProviderSelector) : list string :=
  provider_order self.

(** The two provider classes. *)
Inductive backend : Type := AnthropicProvider | OpenAIProvider.

(** A provider as the registry makes it: its class, its id and its
    configuration.  The metrics that a provider keeps of its own calls
    are written inside [summarize_async], which is an input of the walk
    below; they are the subject of [Metrics] and are not part of this
    record. *)
Record AIProvider : Type := mkAIProvider {
  provider_backend : backend;
  provider_name : string;
  provider_config : ProviderConfig
}.

(** Body of the loop of [_initialize_providers]; an unknown provider
    type raises [ValueError] with a message that ends with that type. *)
Definition registry_step (providers : result (gmap string AIProvider))
    (config : ProviderConfig) : result (gmap string AIProvider) :=
  match providers with
  | Raise e => Raise e
  | Ok ps =>
      if negb (enabled config) then Ok ps
      else if decide (provider_type config = "anthropic") then
        Ok (<[provider_id config :=
                mkAIProvider AnthropicProvider (provider_id config) config]> ps)
      else if decide (provider_type config = "openai") then
        Ok (<[provider_id config :=
                mkAIProvider OpenAIProvider (provider_id config) config]> ps)
      else Raise (ValueError ("Unknown provider type: " +:+ provider_type config))
  end.

(** [ProviderRegistry.__init__]. *)
Definition new_registry (provider_configs : list ProviderConfig)
    : result (gmap string AIProvider) :=
  fold_left registry_step provider_configs (Ok ∅).

(** [get_provider]: the [ValueError] of an id that is not registered
    carries that id. *)
Definition get_provider (providers : gmap string AIProvider)
    (id : string) : result AIProvider :=
  match providers !! id with
  | Some p => Ok p
  | None => Raise (ValueError ("Provider not found: " +:+ id))
  end.

End Providers.

(** ** providers/multi_provider_summarizer.py *)

Module Summarizer.
Import Providers.

Record MultiProviderSummarizer : Type := mkSummarizer {
  registry : gmap string AIProvider;
  selector : ProviderSelector;
  prompts : gmap string string;
  max_tokens_per_summary : Z;
  summarization_temperature : float;
  total_input_tokens : Z;
  total_output_tokens : Z
}.

(** [MultiProviderSummarizer.__init__], given the loaded prompts; the
    construction of the registry can raise. *)
Definition new_summarizer (provider_configs : list ProviderConfig)
    (provider_strategy : string) (prompts : gmap string string)
    (max_tokens : Z) (temperature : float) : result MultiProviderSummarizer :=
  match new_registry provider_configs with
  | Raise e => Raise e
  | Ok reg =>
      Ok (mkSummarizer reg (new_selector provider_configs provider_strategy)
                       prompts max_tokens temperature 0 0)
  end.

Definition add_tokens (self : MultiProviderSummarizer) (usage : gmap string Z)
    : MultiProviderSummarizer :=
  {| registry := registry self;
     selector := selector self;
     prompts := prompts self;
     max_tokens_per_summary := max_tokens_per_summary self;
     summarization_temperature := summarization_temperature self;
     total_input_tokens :=
       (total_input_tokens self + default 0 (usage !! "input_tokens"))%Z;
     total_output_tokens :=
       (total_output_tokens self + default 0 (usage !! "output_tokens"))%Z |}.

Section Walk.
(** [str.format(topic=, title=, content=)] on a template; it raises
    on a template with other fields. *)
Variable str_format : string → string → string → string → result string.
(** The reply of a provider to [summarize_async]: the bullets and the
    usage, or an exception.  The first argument is the position in the
    chain at which the provider is called, as one provider may reply
    differently to two calls. *)
Variable summarize_async :
  nat → AIProvider → Article → string → Z → float →
  result (list string * gmap string Z).

Definition _create_prompt (self : MultiProviderSummarizer)
    (a : Article) (audience_level topic : string) : result string :=
  let content :=
    if Nat.ltb 3000 (String.length (content a))
    then String.substring 0 3000 (content a) else content a in
  match prompts self !! "beginner" with
  | None => Raise (KeyError "beginner")
  | Some fallback =>
      let prompt_template := default fallback (prompts self !! audience_level) in
      str_format prompt_template topic (title a) content
  end.

(** The loop of [_summarize_article_with_fallback] over the rest of
    the chain, from position [i] on.  [get_provider] is outside the
    [try], so its exception leaves the walk; every exception of the
    body of the [try] moves on to the next provider. *)
Fixpoint walk (a : Article) (audience_level topic : string)
    (i : nat) (chain : list string) (self : MultiProviderSummarizer)
    : result SummarizedArticle * MultiProviderSummarizer :=
  match chain with
  | [] => (Ok (from_article a [] audience_level true), self)
  | id :: rest =>
      match get_provider (registry self) id with
      | Raise e => (Raise e, self)
      | Ok provider =>
          match _create_prompt self a audience_level topic with
          | Raise _ => walk a audience_level topic (S i) rest self
          | Ok prompt =>
              match summarize_async i provider a prompt
                      (max_tokens_per_summary self)
                      (summarization_temperature self) with
              | Raise _ => walk a audience_level topic (S i) rest self
              | Ok (bullets, usage) =>
                  let self' := add_tokens self usage in
                  if Nat.ltb (length bullets) 3
                  then walk a audience_level topic (S i) rest self'
                  else (Ok (from_article a (take 5 bullets) audience_level false),
                        self')
              end
          end
      end
  end.

Definition _summarize_article_with_fallback (self : MultiProviderSummarizer)
    (a : Article) (audience_level topic : string)
    : result SummarizedArticle * MultiProviderSummarizer :=
  walk a audience_level topic 0 (get_provider_chain (selector self)) self.


End Walk.

End Summarizer.


(** ** Recursive readings of the loops, used in the proofs *)

Module Readings.
Import Dedup.

(** The articles the URL pass appends when it starts with the urls
    [seen] already met. *)
Fixpoint first_seen (seen : gset string) (l : list Article) : list Article :=
  match l with
  | [] => []
  | a :: l' =>
      if decide (url a ∈ seen) then first_seen seen l'
      else a :: first_seen ({[url a]} ∪ seen) l'
  end.

(** The test of the title pass does not fire on the candidate [y] against
    the accepted article [x]. *)
Definition dissimilar (fuzz_ratio : string → string → Z) (self : Deduplicator)
    (x y : Article) : Prop :=
  ¬ (similarity_threshold self < fuzz_ratio (lower (title y)) (lower (title x)))%Z.

(** The value of [calculate_score] from its three sub-scores. *)
Definition weighted_score (content_score recency_score source_score : float) : float :=
  round3 (content_score * Ranker.CONTENT_WEIGHT
          + recency_score * Ranker.RECENCY_WEIGHT
          + source_score * Ranker.SOURCE_WEIGHT)%float.

(** The values that [_score_recency] and [_score_source_trust] return. *)
Definition recency_values : list float := [1; 0.5; 0.2; 0]%float.
Definition trust_values : list float := [1; 0.5]%float.

(** The score of a content of [content_length] characters is in [0, 1]
    for every recency and every source trust. *)
Definition score_in_range (content_length : Z) : bool :=
  forallb (λ r,
    forallb (λ s,
      let x := weighted_score (Ranker.content_depth content_length) r s in
      PrimFloat.leb 0 x && PrimFloat.leb x 1) trust_values) recency_values.

(** A reply that makes the walk move on: an exception, or fewer than
    three bullets. *)
Definition soft_failure (reply : result (list string * gmap string Z)) : Prop :=
  match reply with
  | Raise _ => True
  | Ok (bullets, _) => length bullets < 3
  end.

(** Two states of one summarizer: all but the token totals agree. *)
Definition same_setup (s s' : Summarizer.MultiProviderSummarizer) : Prop :=
  Summarizer.registry s' = Summarizer.registry s ∧
  Summarizer.selector s' = Summarizer.selector s ∧
  Summarizer.prompts s' = Summarizer.prompts s ∧
  Summarizer.max_tokens_per_summary s' = Summarizer.max_tokens_per_summary s ∧
  Summarizer.summarization_temperature s' = Summarizer.summarization_temperature s.

End Readings.

(** ** Concrete articles and configurations *)

Module Scenarios.
Import Dedup.

Definition hour : Z := 3600000000.

Definition news (u t : string) (published : Z) : Article :=
  mkArticle u t "Content" published "ai" "Source A".

(** Three reports of one event: the short title is close to each of the
    long ones, the two long ones are not close to each other. *)
Definition gpt_last : Article :=
  news "https://example.com/1" "OpenAI releases GPT-5 model at last" (10 * hour).
Definition gpt_update : Article :=
  news "https://example.com/2" "Update: OpenAI releases GPT-5 model" (9 * hour).
Definition gpt_short : Article :=
  news "https://example.com/3" "OpenAI releases GPT-5 model" (8 * hour).

Definition no_history : Deduplicator := mkDeduplicator ∅ 85.

(** Two reports with one title, the first published an hour earlier. *)
Definition breaking_1 : Article :=
  news "https://example.com/1" "Breaking News" (1 * hour).
Definition breaking_2 : Article :=
  news "https://example.com/2" "Breaking News" (2 * hour).
(** The later report again, now under the url of the earlier one. *)
Definition breaking_2_same_url : Article :=
  news "https://example.com/1" "Breaking News" (2 * hour).

Definition sent_breaking_1 : Deduplicator :=
  mkDeduplicator
    {[ "https://example.com/1" := mkEntry "https://example.com/1" "Breaking News" 0 ]}
    85.

(** One topic whose daily cap is negative, [min_quality_score] 0. *)
Definition capped_below_zero : gmap string TopicConfig :=
  {[ "ai" := mkTopicConfig "cs_student" false None 0 (-1) [] ]}.

(** One topic with the cap 2 and the threshold 0.4, and a trusted source. *)
Definition ai_topic : gmap string TopicConfig :=
  {[ "ai" := mkTopicConfig "cs_student" false None 0.4 2 ["Source A"] ]}.

(** An article of 1500 characters from the trusted source. *)
Definition long_read : Article :=
  mkArticle "https://example.com/long" "A long read"
            (string_of_list_ascii (replicate 1500 "x"%char)) (10 * hour)
            "ai" "Source A Daily".

Definition robot_story : Article :=
  mkArticle "https://example.com/r" "Robots" "Content" (1 * hour) "robotics" "Source B".

(** Three configured providers: the second is disabled, the third has
    the first place in the priority order. *)
Definition provider (id type : string) (on : bool) (prio : Z) : ProviderConfig :=
  mkProviderConfig id type "key" "model" on prio 30 500 0.3 3 15.

Definition three_providers : list ProviderConfig :=
  [ provider "openai_fallback" "openai" true 2;
    provider "openai_spare" "openai" false 0;
    provider "anthropic_primary" "anthropic" true 1 ].

Definition the_prompts : gmap string string :=
  {[ "beginner" := "Summarize {title}: {content}";
     "cs_student" := "Summarize {title} for students: {content}" ]}.

Definition the_summarizer : Summarizer.MultiProviderSummarizer :=
  Summarizer.mkSummarizer
    {[ "openai_fallback" :=
         Providers.mkAIProvider Providers.OpenAIProvider "openai_fallback"
           (provider "openai_fallback" "openai" true 2);
       "anthropic_primary" :=
         Providers.mkAIProvider Providers.AnthropicProvider "anthropic_primary"
           (provider "anthropic_primary" "anthropic" true 1) ]}
    (Providers.new_selector three_providers "priority")
    the_prompts 500 0.3 0 0.

(** A stand-in for [str.format]: it never raises. *)
Definition plain_format (template topic title content : string) : result string :=
  Ok (template +:+ topic +:+ title +:+ content).

Definition seven_bullets : list string :=
  [ "The lab released a new model."; "It is faster than the last one.";
    "It costs less to run."; "It is open to all users.";
    "It reads longer documents."; "It was tested on new benchmarks.";
    "More releases are planned." ].

Definition usage_of (i o : Z) : gmap string Z :=
  {[ "input_tokens" := i; "output_tokens" := o ]}.

(** The Anthropic provider is rate limited; the OpenAI provider answers
    with two bullets only. *)
Definition all_providers_fail (i : nat) (p : Providers.AIProvider) (a : Article)
    (prompt : string) (max_tokens : Z) (temperature : float)
    : result (list string * gmap string Z) :=
  match Providers.provider_backend p with
  | Providers.AnthropicProvider => Raise (ProviderAPIError "rate limit")
  | Providers.OpenAIProvider => Ok (take 2 seven_bullets, usage_of 900 40)
  end.

(** The Anthropic provider is rate limited; the OpenAI provider answers
    with seven bullets. *)
Definition fallback_answers (i : nat) (p : Providers.AIProvider) (a : Article)
    (prompt : string) (max_tokens : Z) (temperature : float)
    : result (list string * gmap string Z) :=
  match Providers.provider_backend p with
  | Providers.AnthropicProvider => Raise (ProviderAPIError "rate limit")
  | Providers.OpenAIProvider => Ok (seven_bullets, usage_of 900 120)
  end.

End Scenarios.

(** ** deduplicator.py: the history of sent articles *)

Module History.
Import Dedup.

(** [timedelta(days=d)], in microseconds. *)
Definition days (d : Z) : Z := (d * 86400 * 1000000)%Z.

(** Body of the loop of [ArticleHistory.add_articles] on the pair of
    the index of the article and the history; [clock i] is the reading
    of [datetime.now()] for the article at index [i]. *)
Definition add_step (clock : nat → Z)
    (st : nat * gmap string ArticleHistoryEntry) (a : Article)
    : nat * gmap string ArticleHistoryEntry :=
  (S st.1, <[url a := mkEntry (url a) (title a) (clock st.1)]> st.2).

Definition add_articles (clock : nat → Z)
    (history : gmap string ArticleHistoryEntry) (articles : list Article)
    : gmap string ArticleHistoryEntry :=
  (fold_left (add_step clock) articles (0, history)).2.

(** [ArticleHistory.cleanup_old]; [now] is its reading of the clock. *)
Definition cleanup_old (now : Z) (d : Z)
    (history : gmap string ArticleHistoryEntry)
    : gmap string ArticleHistoryEntry :=
  let cutoff := (now - days d)%Z in
  filter (λ kv, (cutoff <= sent_at kv.2)%Z) history.

(** [Deduplicator.update_history]: the in-memory history after the
    call (which then writes it to the history file). *)
Definition update_history (clock : nat → Z) (now : Z) (self : Deduplicator)
    (articles : list Article) : Deduplicator :=
  mkDeduplicator
    (cleanup_old now 30 (add_articles clock (history self) articles))
    (similarity_threshold self).

End History.

(** ** Further readings used in the proofs *)

Module Lookups.
Import Ranker Metrics.

(** The list filed under topic [t] in the groups, empty when there is
    none. *)
Fixpoint bucket (t : string) (groups : list (string * list RankedArticle))
    : list RankedArticle :=
  match groups with
  | [] => []
  | (t', l) :: groups' => if decide (t' = t) then l else bucket t groups'
  end.

(** The scores that [calculate_score] returns: the decimals [k / 1000]. *)
Definition grade (k : Z) : float := (float_of_Z k / 1000)%float.

(** The thousandths of the score of a ranked article. *)
Definition thousandths (ra : RankedArticle) : Z :=
  default 0%Z (round_scaled 1000 (quality_score ra)).

(** Checks by evaluation: the score of every content length is a grade
    between 0 and 1000; the thousandths of a grade are its index; and
    grades compare as their indices do. *)
Definition score_is_grade (content_length : Z) : bool :=
  forallb (λ r,
    forallb (λ s,
      match round_scaled 1000
              (content_depth content_length * CONTENT_WEIGHT
               + r * RECENCY_WEIGHT + s * SOURCE_WEIGHT)%float with
      | Some k => (0 <=? k)%Z && (k <=? 1000)%Z
      | None => false
      end) Readings.trust_values) Readings.recency_values.

Definition grade_reads_back (k : Z) : bool :=
  match round_scaled 1000 (grade k) with
  | Some k' => (k' =? k)%Z
  | None => false
  end.

Definition grade_table : list (Z * float) :=
  (λ k, (k, grade k)) <$> seqZ 0 1001.

Definition grades_compare (p : Z * float) : bool :=
  forallb (λ q, Bool.eqb (PrimFloat.ltb p.2 q.2) (p.1 <? q.1)%Z) grade_table.

(** The tokens that a recorded call adds to the totals. *)
Definition call_input_tokens (c : call) : Z :=
  match c with Success _ i _ => i | Failure _ => 0%Z end.

Definition call_output_tokens (c : call) : Z :=
  match c with Success _ _ o => o | Failure _ => 0%Z end.

End Lookups.

(** * Properties *)

(** ** Python primitives *)

Module PyFacts.

Section SortFacts.
Context {A K : Type} (lt : K → K → bool) (key : A → K).

Lemma sort_insert_perm (x : A) (l : list A) :
  sort_insert lt key x l ≡ₚ x :: l.
Proof.
  induction l as [|y l IH]; simpl; [done|].
  destruct (lt (key y) (key x)); [|done].
  rewrite IH. apply Permutation_swap.
Qed.

Lemma sort_by_perm (l : list A) : sort_by lt key l ≡ₚ l.
Proof.
  induction l as [|x l IH]; simpl; [done|].
  rewrite sort_insert_perm. by rewrite IH.
Qed.
End SortFacts.

(** The stable insertion sort by an integer key yields an ascending
    list. *)
Lemma sort_insert_sorted {A} (key : A → Z) (x : A) (l : list A) :
  Sorted (λ a b, (key a <= key b)%Z) l →
  Sorted (λ a b, (key a <= key b)%Z) (sort_insert Z.ltb key x l).
Proof.
  induction 1 as [|y l Hs IH Hhd]; simpl.
  - repeat constructor.
  - destruct (Z.ltb_spec (key y) (key x)) as [Hlt|Hge].
    + constructor; [done|].
      destruct Hhd as [|z l' Hyz]; simpl in *.
      * constructor. lia.
      * destruct (Z.ltb (key z) (key x)); constructor; lia.
    + constructor; [by constructor|]. by constructor.
Qed.

Lemma sort_by_sorted {A} (key : A → Z) (l : list A) :
  Sorted (λ a b, (key a <= key b)%Z) (sort_by Z.ltb key l).
Proof.
  induction l as [|x l IH]; simpl; [constructor|].
  by apply sort_insert_sorted.
Qed.

Lemma slice_to_sublist {A} (m : Z) (l : list A) : slice_to m l `sublist_of` l.
Proof. unfold slice_to. case_match; apply sublist_take. Qed.

Lemma slice_to_length {A} (m : Z) (l : list A) :
  (0 <= m)%Z → (Z.of_nat (length (slice_to m l)) <= m)%Z.
Proof.
  intros Hm. unfold slice_to.
  destruct (Z.leb_spec 0 m) as [_|?]; [|lia].
  pose proof (firstn_le_length (Z.to_nat m) l). lia.
Qed.

Lemma filter_none {A} (P : A → Prop) `{∀ x, Decision (P x)} (l : list A) :
  (∀ x, x ∈ l → ¬ P x) → filter P l = [].
Proof.
  induction l as [|x l IH]; intros Hl; [done|].
  rewrite filter_cons_False by (apply Hl; left).
  apply IH. intros y Hy. apply Hl. by right.
Qed.

End PyFacts.

(** ** The deduplicator *)

Module DedupFacts.
Import Dedup Readings Scenarios.

Lemma fold_url_step (l : list Article) (seen : gset string) (acc : list Article) :
  (fold_left url_step l (seen, acc)).2 = acc ++ first_seen seen l.
Proof.
  revert seen acc. induction l as [|a l IH]; intros seen acc; simpl.
  - by rewrite app_nil_r.
  - unfold url_step at 2. simpl. destruct (decide (url a ∈ seen)).
    + apply IH.
    + rewrite IH. by rewrite <- app_assoc.
Qed.

Lemma url_pass_first_seen (l : list Article) :
  _deduplicate_by_url l = first_seen ∅ l.
Proof. unfold _deduplicate_by_url. by rewrite fold_url_step. Qed.

Lemma first_seen_sublist (l : list Article) (seen : gset string) :
  first_seen seen l `sublist_of` l.
Proof.
  revert seen. induction l as [|a l IH]; intros seen; simpl; [done|].
  destruct (decide (url a ∈ seen)).
  - by apply sublist_cons.
  - by apply sublist_skip.
Qed.

Lemma first_seen_fresh (l : list Article) (seen : gset string) (a : Article) :
  a ∈ first_seen seen l → url a ∉ seen.
Proof.
  revert seen. induction l as [|b l IH]; intros seen; simpl.
  - by intros ?%elem_of_nil.
  - destruct (decide (url b ∈ seen)); [by apply IH|].
    intros [->|Hin]%elem_of_cons; [done|].
    apply IH in Hin. set_solver.
Qed.

Lemma first_seen_NoDup (l : list Article) (seen : gset string) :
  NoDup (url <$> first_seen seen l).
Proof.
  revert seen. induction l as [|a l IH]; intros seen; simpl; [constructor|].
  destruct (decide (url a ∈ seen)); [apply IH|].
  rewrite fmap_cons. constructor; [|apply IH].
  intros (b & Hb & Hin)%list_elem_of_fmap.
  apply first_seen_fresh in Hin. set_solver.
Qed.

Lemma first_seen_head (l : list Article) (seen : gset string) (u : string) :
  head (filter (λ a, url a = u) (first_seen seen l)) =
  if decide (u ∈ seen) then None else head (filter (λ a, url a = u) l).
Proof.
  revert seen. induction l as [|a l IH]; intros seen; simpl.
  - by destruct (decide (u ∈ seen)).
  - destruct (decide (url a ∈ seen)) as [Hs|Hs].
    + rewrite IH. destruct (decide (u ∈ seen)); [done|].
      rewrite filter_cons_False; [done|]. intros Heq. by subst u.
    + destruct (decide (url a = u)) as [<-|Hne].
      * rewrite !filter_cons_True by done. simpl. by rewrite decide_False.
      * rewrite !filter_cons_False by done. rewrite IH.
        destruct (decide (u ∈ seen)).
        -- rewrite decide_True; [done|]. apply elem_of_union. by right.
        -- rewrite decide_False; [done|].
           intros [Hu%elem_of_singleton|Hu]%elem_of_union; congruence.
Qed.

Lemma url_pass_invariant_NoDup (articles : list Article) :
  NoDup (url <$> _deduplicate_by_url articles).
Proof. rewrite url_pass_first_seen. apply first_seen_NoDup. Qed.

(** C8.  The URL pass keeps exactly the first occurrence of each url: no
    two kept articles share a url, the kept articles are a subsequence of
    the input (so they stand in first-seen input order), and for every url
    the kept article with that url is the first input article with it. *)
Theorem url_pass_invariant (articles : list Article) :
  NoDup (url <$> _deduplicate_by_url articles) ∧
  _deduplicate_by_url articles `sublist_of` articles ∧
  ∀ u, head (filter (λ a, url a = u) (_deduplicate_by_url articles)) =
       head (filter (λ a, url a = u) articles).
Proof.
  rewrite url_pass_first_seen. split; [apply first_seen_NoDup|].
  split; [apply first_seen_sublist|].
  intros u. rewrite first_seen_head. by rewrite decide_False by set_solver.
Qed.

Example url_pass_example :
  _deduplicate_by_url [breaking_1; breaking_2_same_url; breaking_2; breaking_1]
  = [breaking_1; breaking_2].
Proof. vm_compute. reflexivity. Qed.

Lemma filter_sent_unsent (self : Deduplicator) (l : list Article) (a : Article) :
  a ∈ _filter_sent self l → url a ∉ dom (history self).
Proof.
  unfold _filter_sent. intros [Hs _]%list_elem_of_filter.
  unfold is_sent in Hs. by apply bool_decide_eq_false in Hs.
Qed.

(** C7.  An input article whose url is a key of the loaded history is
    absent from the output of [deduplicate]: no output article is that
    article, nor equal to it in the sense of [Article.__eq__]. *)
Theorem history_containment (fuzz_ratio : string → string → Z)
    (self : Deduplicator) (articles : list Article) (A : Article) :
  A ∈ articles →
  url A ∈ dom (history self) →
  (A ∉ deduplicate fuzz_ratio self articles) ∧
  ∀ b, b ∈ deduplicate fuzz_ratio self articles → article_eq b A = false.
Proof.
  intros _ Hsent. split.
  - intros Hin. by apply filter_sent_unsent in Hin.
  - intros b Hin. apply filter_sent_unsent in Hin.
    unfold article_eq. apply bool_decide_eq_false. congruence.
Qed.

Lemma history_containment_witness :
  (breaking_1 ∉ deduplicate Fuzz.ratio sent_breaking_1 [breaking_1; breaking_2]) ∧
  ∀ b, b ∈ deduplicate Fuzz.ratio sent_breaking_1 [breaking_1; breaking_2] →
       article_eq b breaking_1 = false.
Proof.
  apply (history_containment Fuzz.ratio sent_breaking_1
           [breaking_1; breaking_2] breaking_1).
  - apply list_elem_of_here.
  - vm_compute. reflexivity.
Defined.

(** C1.  On three reports of one event, with no history and the default
    threshold, one pass of [deduplicate] returns two articles whose titles
    are similar above the threshold, and a second pass drops one of them:
    deduplicating twice is not deduplicating once. *)
Theorem deduplicate_not_idempotent :
  let X := [gpt_last; gpt_update; gpt_short] in
  let once := deduplicate Fuzz.ratio no_history X in
  once = [gpt_update; gpt_short] ∧
  (similarity_threshold no_history
   <? Fuzz.ratio (lower (title gpt_short)) (lower (title gpt_update)))%Z = true ∧
  deduplicate Fuzz.ratio no_history once = [gpt_short] ∧
  deduplicate Fuzz.ratio no_history once ≠ once.
Proof. vm_compute. repeat split; try reflexivity. discriminate. Qed.

(** *** Where one pass is enough

    A second pass changes nothing when the title pass has left no two
    titles above the threshold. *)

Lemma StronglySorted_sublist {A} (R : relation A) (l k : list A) :
  l `sublist_of` k → StronglySorted R k → StronglySorted R l.
Proof.
  induction 1 as [|x l k Hsub IH|x l k Hsub IH]; intros Hk.
  - constructor.
  - apply StronglySorted_inv in Hk as [Hk Hall]. constructor; [by apply IH|].
    rewrite Forall_forall in *. intros y Hy. apply Hall.
    by eapply elem_of_sublist.
  - apply StronglySorted_inv in Hk as [Hk _]. by apply IH.
Qed.

Lemma first_seen_id (l : list Article) (seen : gset string) :
  NoDup (url <$> l) → (∀ a, a ∈ l → url a ∉ seen) → first_seen seen l = l.
Proof.
  revert seen. induction l as [|a l IH]; intros seen Hnd Hfresh; [done|].
  rewrite fmap_cons in Hnd. apply NoDup_cons in Hnd as [Ha Hnd]. simpl.
  rewrite decide_False by (apply Hfresh; left). f_equal.
  apply IH; [done|]. intros b Hb [Hu%elem_of_singleton|Hu]%elem_of_union.
  - apply Ha. rewrite <- Hu. by apply list_elem_of_fmap_2.
  - apply (Hfresh b); [by right|done].
Qed.

Lemma list_remove_sublist (u : Article) (l : list Article) :
  list_remove u l `sublist_of` l.
Proof.
  induction l as [|y l IH]; simpl; [done|].
  destruct (article_eq y u); [by apply sublist_cons|by apply sublist_skip].
Qed.

Section TitlePass.
Variable fuzz_ratio : string → string → Z.
Variable self : Deduplicator.

Lemma title_step_sublist (acc : list Article) (a : Article) :
  title_step fuzz_ratio self acc a `sublist_of` acc ++ [a].
Proof.
  unfold title_step. destruct (first_similar fuzz_ratio self a acc) as [u|].
  - destruct (published_at a <? published_at u)%Z.
    + apply sublist_app; [apply list_remove_sublist|done].
    + by apply sublist_inserts_r.
  - done.
Qed.

(** The title pass returns a subsequence of its input. *)
Lemma title_fold_sublist (rest acc : list Article) :
  fold_left (title_step fuzz_ratio self) rest acc `sublist_of` acc ++ rest.
Proof.
  revert acc. induction rest as [|a rest IH]; intros acc; simpl.
  - by rewrite app_nil_r.
  - etrans; [apply IH|]. rewrite (cons_middle a acc rest), (assoc (++)).
    apply sublist_app; [apply title_step_sublist|done].
Qed.

Lemma first_similar_none (a : Article) (acc : list Article) :
  Forall (λ x, dissimilar fuzz_ratio self x a) acc →
  first_similar fuzz_ratio self a acc = None.
Proof.
  induction 1 as [|x acc Hx _ IH]; simpl; [done|].
  unfold dissimilar in Hx. by apply Z.ltb_nlt in Hx as ->.
Qed.

Lemma title_fold_dissimilar (rest acc : list Article) :
  StronglySorted (dissimilar fuzz_ratio self) (acc ++ rest) →
  fold_left (title_step fuzz_ratio self) rest acc = acc ++ rest.
Proof.
  revert acc. induction rest as [|a rest IH]; intros acc Hs; simpl.
  - by rewrite app_nil_r.
  - unfold title_step at 2. rewrite first_similar_none.
    + rewrite IH; rewrite <- (assoc (++)); done.
    + apply Forall_forall. intros x Hx.
      eapply StronglySorted_app_1_elem_of; [done..|left].
Qed.

Lemma filter_sent_twice (l : list Article) :
  _filter_sent self (_filter_sent self l) = _filter_sent self l.
Proof.
  unfold _filter_sent. induction l as [|a l IH]; [done|].
  destruct (is_sent (history self) (url a)) eqn:Hs.
  - by rewrite filter_cons_False by (by rewrite Hs).
  - rewrite !filter_cons_True by done. by rewrite IH.
Qed.

(** When the title pass leaves no accepted article and later candidate
    above the threshold, [deduplicate] is idempotent on that input. *)
Lemma deduplicate_twice_when_dissimilar (articles : list Article) :
  StronglySorted (dissimilar fuzz_ratio self)
    (_deduplicate_by_title fuzz_ratio self (_deduplicate_by_url articles)) →
  deduplicate fuzz_ratio self (deduplicate fuzz_ratio self articles)
  = deduplicate fuzz_ratio self articles.
Proof.
  intros Hdis. unfold deduplicate at 1.
  set (D := deduplicate fuzz_ratio self articles).
  assert (D `sublist_of`
            _deduplicate_by_title fuzz_ratio self (_deduplicate_by_url articles))
    as Hsub1 by apply sublist_filter.
  assert (D `sublist_of` _deduplicate_by_url articles) as Hsub2.
  { etrans; [done|]. apply (title_fold_sublist _ []). }
  rewrite url_pass_first_seen, first_seen_id.
  - unfold _deduplicate_by_title. rewrite title_fold_dissimilar.
    + apply filter_sent_twice.
    + exact (StronglySorted_sublist _ _ _ Hsub1 Hdis).
  - eapply sublist_NoDup; [|by apply fmap_sublist].
    apply url_pass_invariant_NoDup.
  - intros a _. apply not_elem_of_empty.
Qed.
End TitlePass.

Example gpt_ratios :
  Fuzz.ratio (lower (title gpt_update)) (lower (title gpt_last)) = 77%Z ∧
  Fuzz.ratio (lower (title gpt_short)) (lower (title gpt_last)) = 87%Z ∧
  Fuzz.ratio (lower (title gpt_short)) (lower (title gpt_update)) = 87%Z.
Proof. vm_compute. repeat split. Qed.

Lemma url_pass_two (a b : Article) :
  url a ≠ url b → _deduplicate_by_url [a; b] = [a; b].
Proof.
  intros Hne. rewrite url_pass_first_seen. simpl.
  rewrite decide_False by apply not_elem_of_empty.
  rewrite decide_False; [done|].
  intros [Hu%elem_of_singleton|Hu%elem_of_empty]%elem_of_union; [congruence|done].
Qed.

Lemma title_pass_later_second (fuzz_ratio : string → string → Z)
    (self : Deduplicator) (a b : Article) :
  (similarity_threshold self < fuzz_ratio (lower (title b)) (lower (title a)))%Z →
  (published_at a <= published_at b)%Z →
  _deduplicate_by_title fuzz_ratio self [a; b] = [a].
Proof.
  intros Hsim Hle. unfold _deduplicate_by_title, title_step. simpl.
  apply Z.ltb_lt in Hsim. rewrite Hsim.
  by apply Z.ltb_ge in Hle as ->.
Qed.

Lemma title_pass_earlier_second (fuzz_ratio : string → string → Z)
    (self : Deduplicator) (a b : Article) :
  (similarity_threshold self < fuzz_ratio (lower (title a)) (lower (title b)))%Z →
  (published_at a < published_at b)%Z →
  _deduplicate_by_title fuzz_ratio self [b; a] = [a].
Proof.
  intros Hsim Hlt. unfold _deduplicate_by_title, title_step. simpl.
  apply Z.ltb_lt in Hsim. rewrite Hsim.
  apply Z.ltb_lt in Hlt as ->.
  unfold article_eq. by rewrite bool_decide_eq_true_2.
Qed.

Lemma filter_sent_one (self : Deduplicator) (a : Article) :
  _filter_sent self [a] = if is_sent (history self) (url a) then [] else [a].
Proof.
  unfold _filter_sent. destruct (is_sent (history self) (url a)) eqn:Hs.
  - rewrite filter_cons_False; [done|]. by rewrite Hs.
  - by rewrite filter_cons_True.
Qed.

(** C2, as the code has it.  For two articles with different urls whose
    lower-cased titles score above the threshold in both argument orders,
    the first published strictly before the second: whichever comes first
    in the input, [deduplicate] returns the earlier one alone when its url
    is not in the history, and nothing when it is; the later one never
    survives. *)
Theorem title_tie_break (fuzz_ratio : string → string → Z)
    (self : Deduplicator) (a b : Article) :
  url a ≠ url b →
  (similarity_threshold self < fuzz_ratio (lower (title b)) (lower (title a)))%Z →
  (similarity_threshold self < fuzz_ratio (lower (title a)) (lower (title b)))%Z →
  (published_at a < published_at b)%Z →
  deduplicate fuzz_ratio self [a; b]
    = (if is_sent (history self) (url a) then [] else [a]) ∧
  deduplicate fuzz_ratio self [b; a]
    = (if is_sent (history self) (url a) then [] else [a]).
Proof.
  intros Hne Hba Hab Hlt. unfold deduplicate. split.
  - rewrite url_pass_two by done.
    rewrite title_pass_later_second by (done || lia).
    apply filter_sent_one.
  - rewrite url_pass_two by done.
    rewrite title_pass_earlier_second by done.
    apply filter_sent_one.
Qed.

Lemma title_tie_break_witness :
  deduplicate Fuzz.ratio no_history [breaking_1; breaking_2] = [breaking_1] ∧
  deduplicate Fuzz.ratio no_history [breaking_2; breaking_1] = [breaking_1].
Proof.
  apply (title_tie_break Fuzz.ratio no_history breaking_1 breaking_2).
  - discriminate.
  - vm_compute. reflexivity.
  - vm_compute. reflexivity.
  - vm_compute. reflexivity.
Defined.

(** C2 as stated fails on two articles with one title (ratio 100), the
    first published an hour before the second: when the earlier one was
    sent in a previous run the output is empty, and when the two share a
    url the first of the input is kept, here the later one. *)
Lemma title_tie_break_counterexample :
  (85 < Fuzz.ratio (lower (title breaking_2)) (lower (title breaking_1)))%Z ∧
  (published_at breaking_1 < published_at breaking_2)%Z ∧
  (published_at breaking_1 < published_at breaking_2_same_url)%Z ∧
  deduplicate Fuzz.ratio sent_breaking_1 [breaking_1; breaking_2] = [] ∧
  deduplicate Fuzz.ratio sent_breaking_1 [breaking_2; breaking_1] = [] ∧
  deduplicate Fuzz.ratio no_history [breaking_2_same_url; breaking_1]
    = [breaking_2_same_url].
Proof. vm_compute. repeat split. Qed.

(** The ratio of [difflib] depends on the order of its arguments, and the
    code compares the candidate with the accepted article: two titles may
    be duplicates in one input order and not in the other. *)
Example ratio_depends_on_order :
  Fuzz.ratio "a ai labs" "ai a labs" = 89%Z ∧
  Fuzz.ratio "ai a labs" "a ai labs" = 78%Z ∧
  let x := news "https://example.com/1" "A AI labs" (1 * hour) in
  let y := news "https://example.com/2" "AI a labs" (2 * hour) in
  deduplicate Fuzz.ratio no_history [x; y] = [x; y] ∧
  deduplicate Fuzz.ratio no_history [y; x] = [x].
Proof. vm_compute. repeat split. Qed.

End DedupFacts.

(** ** Provider metrics *)

Module MetricsFacts.
Import Metrics.
Local Open Scope Z_scope.

Lemma run_snoc (calls : list call) (c : call) (m : ProviderMetrics) :
  run (calls ++ [c]) m = apply_call (run calls m) c.
Proof. unfold run. by rewrite fold_left_app. Qed.

Lemma failures_since_success_snoc (calls : list call) (c : call) :
  failures_since_success (calls ++ [c]) =
  if is_failure c then S (failures_since_success calls) else 0%nat.
Proof. unfold failures_since_success. by rewrite reverse_snoc. Qed.

(** The two equations are kept by each recording method. *)
Lemma apply_call_accounting (m : ProviderMetrics) (c : call) (n : nat) :
  total_requests m = successful_requests m + failed_requests m →
  consecutive_failures m = Z.of_nat n →
  total_requests (apply_call m c)
    = successful_requests (apply_call m c) + failed_requests (apply_call m c) ∧
  consecutive_failures (apply_call m c)
    = Z.of_nat (if is_failure c then S n else 0%nat).
Proof. intros Ht Hc. destruct c; simpl; lia. Qed.

(** C10.  After any sequence of [record_success] and [record_failure]
    calls on fresh metrics, [total_requests] is the sum of
    [successful_requests] and [failed_requests], and
    [consecutive_failures] is the number of [record_failure] calls since
    the most recent [record_success]: 0 right after a success. *)
Theorem metrics_accounting (id : string) (calls : list call) :
  total_requests (run calls (fresh id))
    = successful_requests (run calls (fresh id))
      + failed_requests (run calls (fresh id)) ∧
  consecutive_failures (run calls (fresh id))
    = Z.of_nat (failures_since_success calls) ∧
  ∀ latency i o,
    consecutive_failures (run (calls ++ [Success latency i o]) (fresh id)) = 0.
Proof.
  assert (total_requests (run calls (fresh id))
            = successful_requests (run calls (fresh id))
              + failed_requests (run calls (fresh id)) ∧
          consecutive_failures (run calls (fresh id))
            = Z.of_nat (failures_since_success calls)) as [Ht Hc].
  { induction calls as [|c calls [IHt IHc]] using rev_ind; [done|].
    rewrite run_snoc, failures_since_success_snoc.
    by apply apply_call_accounting. }
  repeat split; [done..|].
  intros latency i o. by rewrite run_snoc.
Qed.

Example metrics_run :
  let m := run [Failure "timeout"; Success 1.5 100 20; Failure "rate limit";
                Failure "rate limit"] (fresh "openai_fallback") in
  total_requests m = 4 ∧ successful_requests m = 1 ∧ failed_requests m = 3 ∧
  consecutive_failures m = 2.
Proof. vm_compute. repeat split. Qed.

End MetricsFacts.

(** ** The selector and the registry *)

Module ProvidersFacts.
Import Providers PyFacts Scenarios.

(** Whatever the strategy, the order lists the ids of the enabled
    configurations, each as often as it is configured. *)
Lemma provider_order_perm (strategy : string) (configs : list ProviderConfig) :
  _build_provider_order strategy configs
  ≡ₚ provider_id <$> filter (λ c, enabled c = true) configs.
Proof.
  unfold _build_provider_order.
  repeat case_decide; by rewrite sort_by_perm.
Qed.

(** C9.  The selector's order is a rearrangement of the provider ids of
    the enabled configurations; under "performance", and under any
    strategy other than "priority" and "cost", it is the order of the
    "priority" strategy, which lists the enabled configurations by
    ascending priority number. *)
Theorem selector_strategy_fallback (configs : list ProviderConfig) :
  (∀ strategy,
     provider_order (new_selector configs strategy)
     ≡ₚ provider_id <$> filter (λ c, enabled c = true) configs) ∧
  (∀ strategy,
     strategy ≠ "priority" → strategy ≠ "cost" →
     provider_order (new_selector configs strategy)
     = provider_order (new_selector configs "priority")) ∧
  provider_order (new_selector configs "performance")
  = provider_order (new_selector configs "priority") ∧
  ∃ sorted,
    provider_order (new_selector configs "priority") = provider_id <$> sorted ∧
    sorted ≡ₚ filter (λ c, enabled c = true) configs ∧
    Sorted (λ a b, (priority a <= priority b)%Z) sorted.
Proof.
  split; [intros strategy; apply provider_order_perm|].
  split.
  { intros strategy Hp Hc. simpl. unfold _build_provider_order.
    rewrite (decide_False (P := strategy = "priority")) by done.
    rewrite (decide_False (P := strategy = "cost")) by done.
    by case_decide. }
  split; [done|].
  exists (sort_by Z.ltb priority (filter (λ c, enabled c = true) configs)).
  split; [done|]. split; [apply sort_by_perm|apply sort_by_sorted].
Qed.

Example provider_orders :
  _build_provider_order "priority" three_providers
    = ["anthropic_primary"; "openai_fallback"] ∧
  _build_provider_order "fastest" three_providers
    = ["anthropic_primary"; "openai_fallback"] ∧
  _build_provider_order "cost" three_providers
    = ["openai_fallback"; "anthropic_primary"].
Proof. vm_compute. repeat split. Qed.

End ProvidersFacts.

(** ** Scoring and ranking *)

Module RankerFacts.
Import Ranker Readings Scenarios PyFacts.

Lemma content_depth_cap (L : Z) :
  (1500 <= L)%Z → content_depth L = content_depth 1500.
Proof.
  intros HL. unfold content_depth.
  destruct (Z.ltb_spec L 200) as [?|_]; [lia|].
  destruct (Z.ltb_spec L 500) as [?|_]; [lia|].
  rewrite Z.min_r by lia. reflexivity.
Qed.

Lemma recency_in_values (age : Z) : In (recency age) recency_values.
Proof.
  unfold recency, recency_values.
  repeat case_match; simpl; tauto.
Qed.

Lemma source_trust_in_values (topics : gmap string TopicConfig) (a : Article) :
  In (_score_source_trust topics a) trust_values.
Proof.
  unfold _score_source_trust, trust_values.
  repeat case_match; simpl; tauto.
Qed.

Lemma calculate_score_weighted (topics : gmap string TopicConfig) (now : Z)
    (a : Article) :
  calculate_score topics now a
  = weighted_score (content_depth (Z.of_nat (String.length (content a))))
                   (recency (now - published_at a))
                   (_score_source_trust topics a).
Proof. reflexivity. Qed.

(** Every content length up to 1500 is checked by evaluation; longer
    contents score as 1500 characters do. *)
Lemma lengths_in_range : forallb score_in_range (seqZ 0 1501) = true.
Proof. vm_compute. reflexivity. Qed.

Lemma weighted_score_in_range (L : Z) (r s : float) :
  (0 <= L)%Z → In r recency_values → In s trust_values →
  PrimFloat.leb 0 (weighted_score (content_depth L) r s) = true ∧
  PrimFloat.leb (weighted_score (content_depth L) r s) 1 = true.
Proof.
  intros HL Hr Hs.
  assert (∃ L', (0 <= L' < 1501)%Z ∧ content_depth L = content_depth L')
    as (L' & HL' & ->).
  { destruct (decide (L < 1500)%Z).
    - exists L. split; [lia|done].
    - exists 1500%Z. split; [lia|]. apply content_depth_cap. lia. }
  pose proof lengths_in_range as Hall.
  rewrite forallb_forall in Hall.
  assert (In L' (seqZ 0 1501)) as Hin.
  { apply list_elem_of_In, elem_of_seqZ. lia. }
  apply Hall in Hin. unfold score_in_range in Hin.
  rewrite forallb_forall in Hin. apply Hin in Hr.
  rewrite forallb_forall in Hr. apply Hr in Hs.
  by apply andb_true_iff in Hs.
Qed.

(** C5, as the code has it.  The score of an article lies in [0, 1] at
    every reading of the clock, and it is a function of the article, the
    topic configuration and the recency tier of the article at the call:
    two readings of the clock that put the article in the same tier give
    the same score. *)
Theorem score_bounds (topics : gmap string TopicConfig) (now : Z) (a : Article) :
  PrimFloat.leb 0 (calculate_score topics now a) = true ∧
  PrimFloat.leb (calculate_score topics now a) 1 = true ∧
  ∀ now',
    recency (now' - published_at a) = recency (now - published_at a) →
    calculate_score topics now' a = calculate_score topics now a.
Proof.
  rewrite calculate_score_weighted.
  destruct (weighted_score_in_range
              (Z.of_nat (String.length (content a)))
              (recency (now - published_at a))
              (_score_source_trust topics a)) as [H0 H1].
  - lia.
  - apply recency_in_values.
  - apply source_trust_in_values.
  - repeat split; [done..|].
    intros now' Htier. rewrite calculate_score_weighted. by rewrite Htier.
Qed.

Example score_long_recent_trusted :
  calculate_score ai_topic (11 * hour) long_read = 1%float ∧
  calculate_score ai_topic (40 * hour) long_read = 0.85%float ∧
  calculate_score ∅ (11 * hour) long_read = 0.85%float.
Proof. vm_compute. repeat split. Qed.

(** C5 as stated fails on its second half: the score reads the clock, so
    one article scored an hour and 99 hours after its publication gets two
    scores. *)
Lemma score_depends_on_clock :
  calculate_score ai_topic (2 * hour) breaking_1 = 0.607%float ∧
  calculate_score ai_topic (100 * hour) breaking_1 = 0.307%float ∧
  calculate_score ai_topic (2 * hour) breaking_1
  ≠ calculate_score ai_topic (100 * hour) breaking_1.
Proof.
  split; [vm_compute; reflexivity|]. split; [vm_compute; reflexivity|].
  intros Heq.
  apply (f_equal (λ x, PrimFloat.ltb x 0.5%float)) in Heq.
  vm_compute in Heq. discriminate.
Qed.

(** *** The ranker *)

(** Grouping keeps the keys distinct and files every article under its
    own topic. *)
Lemma bucket_append_keys (t : string) (ra : RankedArticle)
    (groups : list (string * list RankedArticle)) :
  (bucket_append t ra groups).*1
  = if decide (t ∈ groups.*1) then groups.*1 else groups.*1 ++ [t].
Proof.
  induction groups as [|[t' l] groups IH]; [done|].
  cbn [bucket_append]. rewrite fmap_cons. cbn [fst].
  destruct (decide (t' = t)) as [->|Hne]; rewrite fmap_cons; cbn [fst].
  - rewrite decide_True; [done|]. left.
  - rewrite IH. destruct (decide (t ∈ groups.*1)) as [Hin|Hnin].
    + rewrite decide_True; [done|]. by right.
    + rewrite decide_False; [done|].
      intros [?|?]%elem_of_cons; congruence.
Qed.

Lemma bucket_append_NoDup (t : string) (ra : RankedArticle)
    (groups : list (string * list RankedArticle)) :
  NoDup groups.*1 → NoDup (bucket_append t ra groups).*1.
Proof.
  intros Hnd. rewrite bucket_append_keys. case_decide; [done|].
  apply NoDup_app. split; [done|]. split; [|apply NoDup_singleton].
  intros x Hx ->%list_elem_of_singleton. done.
Qed.

Lemma bucket_append_filed (ra : RankedArticle)
    (groups : list (string * list RankedArticle)) :
  Forall (λ item, Forall (λ r, topic (article r) = item.1) item.2) groups →
  Forall (λ item, Forall (λ r, topic (article r) = item.1) item.2)
         (bucket_append (topic (article ra)) ra groups).
Proof.
  induction 1 as [|[t' l] groups Hl Hg IH]; simpl.
  - repeat constructor.
  - destruct (decide (t' = topic (article ra))) as [->|Hne].
    + constructor; [|done]. simpl in *. apply Forall_app. split; [done|].
      by constructor.
    + constructor; done.
Qed.

Lemma group_fold_inv (ranked : list RankedArticle)
    (groups : list (string * list RankedArticle)) :
  NoDup groups.*1 →
  Forall (λ item, Forall (λ r, topic (article r) = item.1) item.2) groups →
  let result :=
    fold_left (λ groups ra, bucket_append (topic (article ra)) ra groups)
              ranked groups in
  NoDup result.*1 ∧
  Forall (λ item, Forall (λ r, topic (article r) = item.1) item.2) result.
Proof.
  revert groups. induction ranked as [|ra ranked IH]; intros groups Hnd Hf; simpl.
  - done.
  - apply IH; [by apply bucket_append_NoDup|by apply bucket_append_filed].
Qed.

Lemma group_by_topic_inv (ranked : list RankedArticle) :
  NoDup (group_by_topic ranked).*1 ∧
  Forall (λ item, Forall (λ r, topic (article r) = item.1) item.2)
         (group_by_topic ranked).
Proof. apply group_fold_inv; constructor. Qed.

Section Output.
Variable topics : gmap string TopicConfig.

Lemma topic_step_app (acc : list RankedArticle)
    (item : string * list RankedArticle) :
  topic_step topics acc item = acc ++ topic_step topics [] item.
Proof.
  unfold topic_step. destruct (topics !! item.1); [done|by rewrite app_nil_r].
Qed.

Lemma fold_topic_step (groups : list (string * list RankedArticle))
    (acc : list RankedArticle) :
  fold_left (topic_step topics) groups acc
  = acc ++ mjoin (topic_step topics [] <$> groups).
Proof.
  revert acc. induction groups as [|item groups IH]; intros acc; simpl.
  - by rewrite app_nil_r.
  - rewrite IH, (topic_step_app acc). by rewrite <- app_assoc.
Qed.

(** What one topic contributes: articles of its bucket that reach the
    threshold of its configuration. *)
Lemma topic_output_elem (item : string * list RankedArticle) (ra : RankedArticle) :
  ra ∈ topic_step topics [] item →
  ∃ cfg, topics !! item.1 = Some cfg ∧ ra ∈ item.2 ∧
         PrimFloat.leb (min_quality_score cfg) (quality_score ra) = true.
Proof.
  unfold topic_step. destruct (topics !! item.1) as [cfg|]; simpl.
  - intros Hin. exists cfg. split; [done|].
    eapply elem_of_sublist in Hin; [|apply slice_to_sublist].
    rewrite sort_by_perm in Hin.
    by apply list_elem_of_filter in Hin as [? ?].
  - by intros ?%elem_of_nil.
Qed.

Lemma topic_output_length (item : string * list RankedArticle) (cfg : TopicConfig) :
  topics !! item.1 = Some cfg →
  (0 <= max_articles_per_day cfg)%Z →
  (Z.of_nat (length (topic_step topics [] item)) <= max_articles_per_day cfg)%Z.
Proof.
  intros Hcfg Hmax. unfold topic_step. rewrite Hcfg. simpl.
  by apply slice_to_length.
Qed.

Lemma topic_output_other (T : string) (item : string * list RankedArticle) :
  Forall (λ r, topic (article r) = item.1) item.2 →
  item.1 ≠ T →
  filter (λ ra, topic (article ra) = T) (topic_step topics [] item) = [].
Proof.
  intros Hfiled Hne. apply filter_none. intros ra Hin HT.
  apply topic_output_elem in Hin as (_ & _ & Hin & _).
  rewrite Forall_forall in Hfiled. apply Hfiled in Hin. congruence.
Qed.

Lemma output_absent_topic (T : string)
    (groups : list (string * list RankedArticle)) :
  T ∉ groups.*1 →
  Forall (λ item, Forall (λ r, topic (article r) = item.1) item.2) groups →
  filter (λ ra, topic (article ra) = T)
         (mjoin (topic_step topics [] <$> groups)) = [].
Proof.
  intros Hnin Hfiled. induction Hfiled as [|item groups Hi Hg IH]; [done|].
  rewrite fmap_cons in Hnin. apply not_elem_of_cons in Hnin as [Hne Hnin].
  change (mjoin (topic_step topics [] <$> item :: groups))
    with (topic_step topics [] item ++ mjoin (topic_step topics [] <$> groups)).
  rewrite filter_app, topic_output_other by done. by rewrite IH.
Qed.

Lemma output_topic_bound (T : string) (cfg : TopicConfig)
    (groups : list (string * list RankedArticle)) :
  topics !! T = Some cfg →
  (0 <= max_articles_per_day cfg)%Z →
  NoDup groups.*1 →
  Forall (λ item, Forall (λ r, topic (article r) = item.1) item.2) groups →
  (Z.of_nat (length (filter (λ ra, topic (article ra) = T)
                       (mjoin (topic_step topics [] <$> groups))))
   <= max_articles_per_day cfg)%Z.
Proof.
  intros Hcfg Hmax Hnd Hfiled.
  induction Hfiled as [|item groups Hi Hg IH]; [simpl; lia|].
  rewrite fmap_cons in Hnd. apply NoDup_cons in Hnd as [Hnin Hnd].
  change (mjoin (topic_step topics [] <$> item :: groups))
    with (topic_step topics [] item ++ mjoin (topic_step topics [] <$> groups)).
  rewrite filter_app, length_app.
  destruct (decide (item.1 = T)) as [HT|HT].
  - rewrite (output_absent_topic T groups) by (done || by rewrite <- HT).
    simpl. rewrite Nat.add_0_r.
    pose proof (topic_output_length item cfg) as Hlen.
    rewrite HT in Hlen. specialize (Hlen Hcfg Hmax).
    pose proof (length_filter (λ ra, topic (article ra) = T)
                  (topic_step topics [] item)). lia.
  - rewrite topic_output_other by done. simpl. by apply IH.
Qed.
End Output.

(** C6, as the code has it.  For every topic with a configuration whose
    daily cap is not negative, the output of [rank_and_filter] holds at
    most that many articles of the topic; and every article of the output
    has a topic with a configuration and a score that reaches the
    [min_quality_score] of that configuration. *)
Theorem ranker_cap (topics : gmap string TopicConfig) (clock : nat → Z)
    (articles : list Article) :
  (∀ T cfg,
     topics !! T = Some cfg →
     (0 <= max_articles_per_day cfg)%Z →
     (Z.of_nat (length (filter (λ ra, topic (article ra) = T)
                          (rank_and_filter topics clock articles)))
      <= max_articles_per_day cfg)%Z) ∧
  (∀ ra,
     ra ∈ rank_and_filter topics clock articles →
     ∃ cfg, topics !! topic (article ra) = Some cfg ∧
            PrimFloat.leb (min_quality_score cfg) (quality_score ra) = true).
Proof.
  unfold rank_and_filter. destruct articles as [|a articles].
  { split; [intros; simpl; lia|by intros ra ?%elem_of_nil]. }
  set (ranked := imap _ (a :: articles)).
  destruct (group_by_topic_inv ranked) as [Hnd Hfiled].
  rewrite fold_topic_step. simpl. split.
  - intros T cfg Hcfg Hmax. by apply output_topic_bound.
  - intros ra (out & Hin & (item & -> & Hitem)%list_elem_of_fmap)%list_elem_of_join.
    pose proof Hin as (cfg & Hcfg & Hra & Hmin)%topic_output_elem.
    exists cfg. split; [|done].
    rewrite Forall_forall in Hfiled. apply Hfiled in Hitem.
    rewrite Forall_forall in Hitem. apply Hitem in Hra. by rewrite Hra.
Qed.

(** C6 as stated fails for a topic whose configured cap is negative: the
    slice then drops articles from the end of the sorted bucket, and the
    two articles left are more than the cap of -1. *)
Lemma ranker_cap_counterexample :
  capped_below_zero !! "ai" = Some (mkTopicConfig "cs_student" false None 0 (-1) []) ∧
  length (filter (λ ra, topic (article ra) = "ai")
            (rank_and_filter capped_below_zero (λ _, 2 * hour)%Z
               [gpt_last; gpt_update; gpt_short])) = 2 ∧
  ¬ (2 <= -1)%Z.
Proof. split; [done|]. split; [vm_compute; reflexivity|lia]. Qed.

Lemma ranker_cap_witness :
  (Z.of_nat (length (filter (λ ra, topic (article ra) = "ai")
                       (rank_and_filter ai_topic (λ _, 11 * hour)%Z
                          [gpt_last; robot_story; gpt_update; gpt_short])))
   <= 2)%Z.
Proof.
  refine (proj1 (ranker_cap ai_topic (λ _, 11 * hour)%Z
                   [gpt_last; robot_story; gpt_update; gpt_short])
            "ai" (mkTopicConfig "cs_student" false None 0.4 2 ["Source A"]) _ _).
  - reflexivity.
  - simpl. lia.
Defined.

Example rank_and_filter_example :
  article <$> rank_and_filter ai_topic (λ _, 11 * hour)%Z
                [gpt_last; robot_story; gpt_update; gpt_short]
  = [gpt_last; gpt_update].
Proof. vm_compute. reflexivity. Qed.

End RankerFacts.

(** ** The fallback walk of the summarizer *)

Module SummarizerFacts.
Import Providers Summarizer Readings Scenarios ProvidersFacts.

(** The registry holds a provider for every enabled configuration. *)
Lemma registry_fold_raise (configs : list ProviderConfig) (e : exn) :
  fold_left registry_step configs (Raise e) = Raise e.
Proof. induction configs as [|c configs IH]; [done|apply IH]. Qed.

Lemma registry_fold_keeps (configs : list ProviderConfig)
    (ps reg : gmap string AIProvider) (id : string) :
  fold_left registry_step configs (Ok ps) = Ok reg →
  is_Some (ps !! id) → is_Some (reg !! id).
Proof.
  revert ps. induction configs as [|c configs IH]; intros ps; simpl.
  - by intros [= ->].
  - destruct (enabled c); simpl; [|by apply IH].
    repeat case_decide.
    + intros Hf Hid. eapply IH; [done|].
      rewrite lookup_insert. by case_decide.
    + intros Hf Hid. eapply IH; [done|].
      rewrite lookup_insert. by case_decide.
    + by rewrite registry_fold_raise.
Qed.

Lemma registry_fold_enabled (configs : list ProviderConfig)
    (ps reg : gmap string AIProvider) (c : ProviderConfig) :
  fold_left registry_step configs (Ok ps) = Ok reg →
  c ∈ configs → enabled c = true → is_Some (reg !! provider_id c).
Proof.
  revert ps. induction configs as [|c' configs IH]; intros ps; cbn [fold_left].
  - by intros _ ?%elem_of_nil.
  - intros Hf [->|Hin]%elem_of_cons Hen.
    2:{ destruct (registry_step (Ok ps) c') as [ps'|e].
        - by eapply IH.
        - by rewrite registry_fold_raise in Hf. }
    unfold registry_step in Hf. rewrite Hen in Hf. simpl in Hf.
    repeat case_decide.
    + eapply registry_fold_keeps; [done|]. by rewrite lookup_insert_eq.
    + eapply registry_fold_keeps; [done|]. by rewrite lookup_insert_eq.
    + by rewrite registry_fold_raise in Hf.
Qed.

Lemma chain_registered (configs : list ProviderConfig) (strategy id : string)
    (reg : gmap string AIProvider) :
  new_registry configs = Ok reg →
  id ∈ get_provider_chain (new_selector configs strategy) →
  is_Some (reg !! id).
Proof.
  intros Hreg Hid. unfold get_provider_chain in Hid. simpl in Hid.
  rewrite provider_order_perm in Hid.
  apply list_elem_of_fmap in Hid as (c & -> & [Hen Hc]%list_elem_of_filter).
  by eapply registry_fold_enabled.
Qed.

Section WalkFacts.
Variable str_format : string → string → string → string → result string.
Variable summarize_async :
  nat → AIProvider → Article → string → Z → float →
  result (list string * gmap string Z).
Variables (a : Article) (audience_level topic : string).

Lemma same_setup_refl (self : MultiProviderSummarizer) : same_setup self self.
Proof. by repeat split. Qed.

Lemma same_setup_add_tokens (self self' : MultiProviderSummarizer)
    (usage : gmap string Z) :
  same_setup self self' → same_setup self (add_tokens self' usage).
Proof. intros H. exact H. Qed.

Lemma create_prompt_same_setup (self self' : MultiProviderSummarizer) :
  same_setup self self' →
  _create_prompt str_format self' a audience_level topic
  = _create_prompt str_format self a audience_level topic.
Proof. intros (_ & _ & Hp & _). unfold _create_prompt. by rewrite Hp. Qed.

(** While every provider met fails softly, the walk goes on; [i] is the
    number of calls made before. *)
Lemma walk_skips (pre rest : list string) (i : nat)
    (self : MultiProviderSummarizer) :
  (∀ j id, pre !! j = Some id →
     ∃ p, registry self !! id = Some p ∧
          ∀ prompt, soft_failure
            (summarize_async (i + j) p a prompt
               (max_tokens_per_summary self) (summarization_temperature self))) →
  ∃ self',
    same_setup self self' ∧
    walk str_format summarize_async a audience_level topic i (pre ++ rest) self
    = walk str_format summarize_async a audience_level topic
        (i + length pre) rest self'.
Proof.
  revert i self. induction pre as [|id pre IH]; intros i self Hpre.
  - exists self. split; [apply same_setup_refl|]. simpl. by rewrite Nat.add_0_r.
  - destruct (Hpre 0 id eq_refl) as (p & Hp & Hsoft).
    rewrite Nat.add_0_r in Hsoft.
    assert (∀ self1, same_setup self self1 →
              ∃ self', same_setup self self' ∧
                walk str_format summarize_async a audience_level topic
                  (S i) (pre ++ rest) self1
                = walk str_format summarize_async a audience_level topic
                    (i + length (id :: pre)) rest self') as Hnext.
    { intros self1 Hsame. destruct (IH (S i) self1) as (self' & Hs' & Heq).
      - intros j id' Hj. destruct (Hpre (S j) id' Hj) as (p' & Hp' & Hsoft').
        destruct Hsame as (Hr & _ & _ & Hm & Ht).
        exists p'. rewrite Hr, Hm, Ht. split; [done|].
        intros prompt. specialize (Hsoft' prompt).
        by rewrite Nat.add_succ_r in Hsoft'.
      - exists self'. split.
        + destruct Hsame as (? & ? & ? & ? & ?), Hs' as (? & ? & ? & ? & ?).
          repeat split; congruence.
        + rewrite Heq. simpl. by rewrite Nat.add_succ_r. }
    cbn [app walk]. unfold get_provider. rewrite Hp.
    destruct (_create_prompt str_format self a audience_level topic) as [prompt|e].
    + specialize (Hsoft prompt).
      destruct (summarize_async i p a prompt _ _) as [[bullets usage]|e].
      * simpl in Hsoft. apply Nat.ltb_lt in Hsoft. rewrite Hsoft.
        apply Hnext. by apply same_setup_add_tokens, same_setup_refl.
      * apply Hnext, same_setup_refl.
    + apply Hnext, same_setup_refl.
Qed.

Lemma walk_exhausted (chain : list string) (i : nat)
    (self : MultiProviderSummarizer) :
  (∀ j id, chain !! j = Some id →
     ∃ p, registry self !! id = Some p ∧
          ∀ prompt, soft_failure
            (summarize_async (i + j) p a prompt
               (max_tokens_per_summary self) (summarization_temperature self))) →
  (walk str_format summarize_async a audience_level topic i chain self).1
  = Ok (from_article a [] audience_level true).
Proof.
  intros Hchain.
  destruct (walk_skips chain [] i self Hchain) as (self' & _ & Heq).
  rewrite app_nil_r in Heq. by rewrite Heq.
Qed.


End WalkFacts.


(** C3.  For a summarizer whose registry and selector are built from one
    list of configurations, if every provider of the chain raises from
    [summarize_async] or returns fewer than three bullets, the walk returns
    the article with [summarization_failed] set and no bullets; it does not
    raise and the article is not dropped. *)
Theorem provider_chain_exhaustion
    (str_format : string → string → string → string → result string)
    (summarize_async : nat → AIProvider → Article → string → Z → float →
                       result (list string * gmap string Z))
    (configs : list ProviderConfig) (strategy : string)
    (self : MultiProviderSummarizer) (a : Article)
    (audience_level topic : string) :
  new_registry configs = Ok (registry self) →
  selector self = new_selector configs strategy →
  (∀ i id p prompt,
     get_provider_chain (selector self) !! i = Some id →
     registry self !! id = Some p →
     soft_failure (summarize_async i p a prompt
                     (max_tokens_per_summary self)
                     (summarization_temperature self))) →
  ∃ s,
    (_summarize_article_with_fallback str_format summarize_async self a
       audience_level topic).1 = Ok s ∧
    s = from_article a [] audience_level true ∧
    summarization_failed s = true ∧ summary_bullets s = [].
Proof.
  intros Hreg Hsel Hfail. eexists. split; [|done].
  unfold _summarize_article_with_fallback. apply walk_exhausted.
  intros j id Hj.
  destruct (chain_registered configs strategy id (registry self)) as [p Hp].
  - done.
  - rewrite <- Hsel. by eapply list_elem_of_lookup_2.
  - exists p. split; [done|]. intros prompt. by eapply Hfail.
Qed.

Lemma provider_chain_exhaustion_witness :
  ∃ s,
    (_summarize_article_with_fallback plain_format all_providers_fail
       the_summarizer gpt_short "cs_student" "ai").1 = Ok s ∧
    s = from_article gpt_short [] "cs_student" true ∧
    summarization_failed s = true ∧ summary_bullets s = [].
Proof.
  apply (provider_chain_exhaustion plain_format all_providers_fail
           three_providers "priority" the_summarizer gpt_short).
  - vm_compute. reflexivity.
  - reflexivity.
  - intros i id p prompt _ _. unfold all_providers_fail.
    destruct (provider_backend p); simpl; [exact I|lia].
Defined.



Example seven_bullets_become_five :
  (_summarize_article_with_fallback plain_format fallback_answers
     the_summarizer gpt_short "cs_student" "ai").1
  = Ok {| base := gpt_short;
          summary_bullets :=
            [ "The lab released a new model."; "It is faster than the last one.";
              "It costs less to run."; "It is open to all users.";
              "It reads longer documents." ];
          Models.audience_level := "cs_student";
          summarization_failed := false |}.
Proof. vm_compute. reflexivity. Qed.

Example the_summarizer_is_constructed :
  new_summarizer three_providers "priority" the_prompts 500 0.3%float
  = Ok the_summarizer.
Proof. vm_compute. reflexivity. Qed.

Example fallback_counts_tokens :
  let s := (_summarize_article_with_fallback plain_format fallback_answers
              the_summarizer gpt_short "cs_student" "ai").2 in
  total_input_tokens s = 900%Z ∧ total_output_tokens s = 120%Z.
Proof. vm_compute. split; reflexivity. Qed.

End SummarizerFacts.

(** ** More on the deduplicator and its history *)

Module DedupMore.
Import Dedup History Readings Scenarios DedupFacts.

Section Output.
Variable fuzz_ratio : string → string → Z.
Variable self : Deduplicator.

(** X1.  [deduplicate] returns a subsequence of its input: it invents no
    article and keeps the input order; so the output is no longer than
    the input, and no two articles of the output share a url. *)
Theorem deduplicate_subsequence (articles : list Article) :
  deduplicate fuzz_ratio self articles `sublist_of` articles ∧
  length (deduplicate fuzz_ratio self articles) ≤ length articles ∧
  NoDup (url <$> deduplicate fuzz_ratio self articles).
Proof.
  assert (deduplicate fuzz_ratio self articles
          `sublist_of` _deduplicate_by_url articles) as Hsub.
  { unfold deduplicate, _filter_sent. etrans; [apply sublist_filter|].
    apply (title_fold_sublist fuzz_ratio self _ []). }
  assert (deduplicate fuzz_ratio self articles `sublist_of` articles) as Hsub'.
  { etrans; [done|]. rewrite url_pass_first_seen. apply first_seen_sublist. }
  split; [done|]. split; [by apply sublist_length|].
  eapply sublist_NoDup; [apply url_pass_invariant_NoDup|by apply fmap_sublist].
Qed.

(** X2.  An input with distinct urls, no title above the threshold
    against an earlier one, and no url in the history comes back as it
    is. *)
Theorem deduplicate_clean_input (articles : list Article) :
  NoDup (url <$> articles) →
  StronglySorted (dissimilar fuzz_ratio self) articles →
  (∀ a, a ∈ articles → url a ∉ dom (history self)) →
  deduplicate fuzz_ratio self articles = articles.
Proof.
  intros Hnd Hdis Hnew. unfold deduplicate.
  rewrite url_pass_first_seen, first_seen_id by (done || set_solver).
  unfold _deduplicate_by_title. rewrite title_fold_dissimilar by done.
  unfold _filter_sent. simpl. induction articles as [|a l IH]; [done|].
  rewrite filter_cons_True.
  - f_equal. apply IH.
    + rewrite fmap_cons in Hnd. by apply NoDup_cons in Hnd as [_ ?].
    + by apply StronglySorted_inv in Hdis as [? _].
    + intros b Hb. apply Hnew. by right.
  - unfold is_sent. apply bool_decide_eq_false. apply Hnew. left.
Qed.

Lemma first_similar_Some (a u : Article) (acc : list Article) :
  first_similar fuzz_ratio self a acc = Some u →
  u ∈ acc ∧ ¬ dissimilar fuzz_ratio self u a.
Proof.
  induction acc as [|x acc IH]; simpl; [done|].
  destruct (Z.ltb_spec (similarity_threshold self)
              (fuzz_ratio (lower (title a)) (lower (title x)))) as [Hlt|Hge].
  - intros [= <-]. split; [left|]. unfold dissimilar. tauto.
  - intros [Hin Hsim]%IH. split; [by right|done].
Qed.

Lemma list_remove_other (x u : Article) (l : list Article) :
  x ∈ l → url x ≠ url u → x ∈ list_remove u l.
Proof.
  intros Hin Hne. induction l as [|y l IH]; simpl; [done|].
  unfold article_eq. case_bool_decide as Hy.
  - apply elem_of_cons in Hin as [->|Hin]; [congruence|done].
  - apply elem_of_cons in Hin as [->|Hin]; [left|right; by apply IH].
Qed.

(** An accepted article stays accepted while no candidate is similar to
    it. *)
Lemma title_fold_keeps (rest acc : list Article) (a : Article) :
  a ∈ acc →
  NoDup (url <$> acc ++ rest) →
  (∀ b, b ∈ rest → dissimilar fuzz_ratio self a b) →
  a ∈ fold_left (title_step fuzz_ratio self) rest acc.
Proof.
  revert acc. induction rest as [|b rest IH]; intros acc Ha Hnd Hdis; [done|].
  simpl. apply IH.
  - unfold title_step.
    destruct (first_similar fuzz_ratio self b acc) as [u|] eqn:Hu.
    + destruct (published_at b <? published_at u)%Z; [|done].
      apply elem_of_app. left.
      apply first_similar_Some in Hu as [Hu Hsim].
      apply list_remove_other; [done|]. intros Heq.
      assert (a = u) as <-.
      { rewrite fmap_app in Hnd. apply NoDup_app in Hnd as (Hnd & _ & _).
        apply list_elem_of_lookup in Ha as [i Hi], Hu as [j Hj].
        assert (i = j) as <-; [|congruence].
        eapply NoDup_lookup; [done| |]; rewrite list_lookup_fmap.
        - by rewrite Hi.
        - rewrite Hj. simpl. by rewrite Heq. }
      apply Hsim, Hdis. left.
    + apply elem_of_app. by left.
  - eapply sublist_NoDup; [done|]. apply fmap_sublist.
    rewrite (cons_middle b acc rest), (assoc (++)).
    apply sublist_app; [apply title_step_sublist|done].
  - intros c Hc. apply Hdis. by right.
Qed.

(** X3.  No false drop: an article that is the first of the input with
    its url, whose url is not in the history, and whose title is not
    above the threshold against any article with another url, in either
    order of comparison, is in the output. *)
Theorem unique_article_survives (articles : list Article) (a : Article) :
  head (filter (λ b, url b = url a) articles) = Some a →
  url a ∉ dom (history self) →
  (∀ b, b ∈ articles → url b ≠ url a →
     dissimilar fuzz_ratio self a b ∧ dissimilar fuzz_ratio self b a) →
  a ∈ deduplicate fuzz_ratio self articles.
Proof.
  intros Hfirst Hnew Hdis. unfold deduplicate, _filter_sent.
  apply list_elem_of_filter. split.
  { unfold is_sent. by apply bool_decide_eq_false. }
  pose proof (url_pass_invariant_NoDup articles) as Hnd.
  assert (a ∈ _deduplicate_by_url articles) as Ha.
  { rewrite url_pass_first_seen.
    pose proof (first_seen_head articles ∅ (url a)) as Hhead.
    rewrite decide_False, Hfirst in Hhead by apply not_elem_of_empty.
    apply head_Some_elem_of in Hhead.
    by apply list_elem_of_filter in Hhead as [_ ?]. }
  assert (∀ b, b ∈ _deduplicate_by_url articles → b ∈ articles) as Hsub.
  { intros b Hb. eapply elem_of_sublist; [done|].
    rewrite url_pass_first_seen. apply first_seen_sublist. }
  apply list_elem_of_split in Ha as (l1 & l2 & Heq).
  rewrite Heq in Hnd, Hsub. unfold _deduplicate_by_title. rewrite Heq.
  rewrite fold_left_app. cbn [fold_left].
  pose proof (title_fold_sublist fuzz_ratio self l1 []) as Hacc. simpl in Hacc.
  rewrite fmap_app, fmap_cons in Hnd.
  assert (∀ b, b ∈ l1 ∨ b ∈ l2 → url b ≠ url a) as Hother.
  { apply NoDup_app in Hnd as (_ & Hl1 & [Hl2 _]%NoDup_cons).
    intros b [Hb|Hb] Hu.
    - apply (Hl1 (url b)); [by apply list_elem_of_fmap_2|]. rewrite Hu. left.
    - apply Hl2. rewrite <- Hu. by apply list_elem_of_fmap_2. }
  replace (title_step fuzz_ratio self
             (fold_left (title_step fuzz_ratio self) l1 []) a)
    with (fold_left (title_step fuzz_ratio self) l1 [] ++ [a]).
  - apply title_fold_keeps.
    + apply elem_of_app. right. left.
    + eapply sublist_NoDup.
      * rewrite <- fmap_cons, <- fmap_app in Hnd. exact Hnd.
      * apply fmap_sublist. rewrite <- (assoc (++)). simpl.
        by apply sublist_app.
    + intros b Hb. apply Hdis.
      * apply Hsub. apply elem_of_app. right. by right.
      * apply Hother. by right.
  - unfold title_step. rewrite first_similar_none; [done|].
    apply Forall_forall. intros x Hx.
    assert (x ∈ l1) as Hx1 by (by eapply elem_of_sublist).
    apply Hdis.
    + apply Hsub. apply elem_of_app. by left.
    + apply Hother. by left.
Qed.
End Output.

Lemma deduplicate_clean_input_witness :
  deduplicate Fuzz.ratio no_history [gpt_last; gpt_update]
  = [gpt_last; gpt_update].
Proof.
  apply (deduplicate_clean_input Fuzz.ratio no_history [gpt_last; gpt_update]).
  - compute_done.
  - repeat constructor. unfold dissimilar. vm_compute. discriminate.
  - intros a _. simpl. rewrite dom_empty_L. apply not_elem_of_empty.
Defined.

Lemma unique_article_survives_witness :
  robot_story ∈ deduplicate Fuzz.ratio sent_breaking_1
                  [breaking_1; robot_story; breaking_2].
Proof.
  apply (unique_article_survives Fuzz.ratio sent_breaking_1
           [breaking_1; robot_story; breaking_2] robot_story).
  - reflexivity.
  - simpl. rewrite dom_singleton_L. intros Hu%elem_of_singleton. discriminate.
  - intros b Hb Hne.
    assert (title b = "Breaking News" ∨ b = robot_story) as [Ht| ->].
    { repeat (apply elem_of_cons in Hb as [->|Hb]); auto.
      by apply elem_of_nil in Hb. }
    + unfold dissimilar. rewrite Ht. vm_compute. split; discriminate.
    + by destruct Hne.
Defined.

End DedupMore.

(** ** The history of sent articles *)

Module HistoryFacts.
Import Dedup History Scenarios DedupFacts.

Lemma add_fold_dom (clock : nat → Z) (articles : list Article) (i : nat)
    (h : gmap string ArticleHistoryEntry) :
  dom (fold_left (add_step clock) articles (i, h)).2
  = dom h ∪ list_to_set (url <$> articles).
Proof.
  revert i h. induction articles as [|a articles IH]; intros i h;
    cbn [fold_left].
  - by rewrite fmap_nil, list_to_set_nil, (right_id_L ∅ (∪)).
  - unfold add_step at 2. cbn [fst snd].
    rewrite IH, dom_insert_L, fmap_cons, list_to_set_cons.
    by rewrite (comm_L _ {[url a]} (dom h)), (assoc_L (∪)).
Qed.

(** Where an entry of the history comes from after [add_articles]: from
    the history before, when no article has its url, or from an article,
    with the reading of the clock for that article. *)
Lemma add_fold_entry (clock : nat → Z) (articles : list Article) (i : nat)
    (h : gmap string ArticleHistoryEntry) (u : string) (e : ArticleHistoryEntry) :
  (fold_left (add_step clock) articles (i, h)).2 !! u = Some e →
  (h !! u = Some e ∧ u ∉ url <$> articles) ∨
  (∃ j a, articles !! j = Some a ∧ url a = u ∧
          e = mkEntry u (title a) (clock (i + j))).
Proof.
  revert i h. induction articles as [|a articles IH]; intros i h;
    cbn [fold_left].
  - intros He. left. split; [done|]. apply not_elem_of_nil.
  - unfold add_step at 2. cbn [fst snd].
    intros [[He Hu]|(j & b & Hj & <- & ->)]%IH.
    + destruct (decide (url a = u)) as [<-|Hne].
      * rewrite lookup_insert_eq in He. injection He as <-.
        right. exists 0, a. by rewrite Nat.add_0_r.
      * rewrite lookup_insert_ne in He by done. left. split; [done|].
        rewrite fmap_cons. intros [?|?]%elem_of_cons; congruence.
    + right. exists (S j), b. rewrite Nat.add_succ_r. done.
Qed.

(** X4.  After [add_articles], the urls marked as sent are those marked
    before and those of the articles. *)
Theorem add_articles_marks (clock : nat → Z)
    (h : gmap string ArticleHistoryEntry) (articles : list Article) (u : string) :
  is_sent (add_articles clock h articles) u = true
  ↔ is_sent h u = true ∨ u ∈ url <$> articles.
Proof.
  unfold is_sent, add_articles. rewrite !bool_decide_eq_true, add_fold_dom.
  rewrite elem_of_union, elem_of_list_to_set. done.
Qed.

(** X5.  After [update_history] no entry is older than 30 days at the
    reading of the clock of the clean-up; an entry of the history before
    whose url is not among the sent articles is kept as it is when it is
    within the 30 days and dropped when it is not; the threshold of the
    deduplicator is left as it is. *)
Theorem update_history_prunes (clock : nat → Z) (now : Z) (self : Deduplicator)
    (articles : list Article) :
  (∀ u e,
     history (update_history clock now self articles) !! u = Some e →
     (now - days 30 <= sent_at e)%Z) ∧
  (∀ u e,
     history self !! u = Some e → u ∉ url <$> articles →
     history (update_history clock now self articles) !! u
     = if decide (now - days 30 <= sent_at e)%Z then Some e else None) ∧
  similarity_threshold (update_history clock now self articles)
  = similarity_threshold self.
Proof.
  split; [|split; [|done]].
  - intros u e. simpl. unfold cleanup_old.
    by intros [_ ?]%map_lookup_filter_Some.
  - intros u e He Hu. simpl. unfold cleanup_old.
    assert (add_articles clock (history self) articles !! u = Some e) as Hadd.
    { unfold add_articles.
      destruct ((fold_left (add_step clock) articles (0, history self)).2 !! u)
        as [e'|] eqn:He'.
      - apply add_fold_entry in He' as [[He' _]|(j & a & Hj & <- & _)].
        + congruence.
        + exfalso. apply Hu. apply list_elem_of_fmap_2.
          by eapply list_elem_of_lookup_2.
      - apply not_elem_of_dom in He'. rewrite add_fold_dom in He'.
        exfalso. apply He', elem_of_union. left. by apply elem_of_dom_2 in He. }
    case_decide as Hd.
    + apply map_lookup_filter_Some. done.
    + apply map_lookup_filter_None. right. intros e' He'.
      rewrite Hadd in He'. by injection He' as <-.
Qed.

(** X6.  When the clock at the clean-up is less than 30 days after its
    readings for the sent articles, every sent article is marked as sent
    after [update_history], and no article with the url of a sent article
    is in the output of a later [deduplicate]. *)
Theorem sent_articles_not_resent (clock : nat → Z) (now : Z) (self : Deduplicator)
    (articles : list Article) (a : Article) :
  (∀ j, j < length articles → (now - days 30 <= clock j)%Z) →
  a ∈ articles →
  is_sent (history (update_history clock now self articles)) (url a) = true ∧
  ∀ fuzz_ratio later b,
    b ∈ deduplicate fuzz_ratio (update_history clock now self articles) later →
    url b ≠ url a.
Proof.
  intros Hclock Ha.
  assert (url a ∈ dom (history (update_history clock now self articles)))
    as Hsent.
  { simpl. unfold cleanup_old, add_articles.
    assert (url a ∈ dom (fold_left (add_step clock) articles
                           (0, history self)).2) as Hin.
    { rewrite add_fold_dom. apply elem_of_union. right.
      apply elem_of_list_to_set. by apply list_elem_of_fmap_2. }
    apply elem_of_dom in Hin as [e He]. apply elem_of_dom. exists e.
    apply map_lookup_filter_Some. split; [done|]. simpl.
    apply add_fold_entry in He as [[_ Hnot]|(j & b & Hj & _ & ->)].
    - exfalso. apply Hnot. by apply list_elem_of_fmap_2.
    - simpl. apply Hclock. by apply lookup_lt_Some in Hj. }
  split.
  - unfold is_sent. by apply bool_decide_eq_true.
  - intros fuzz_ratio later b Hb Heq. apply filter_sent_unsent in Hb.
    apply Hb. by rewrite Heq.
Qed.

Lemma sent_articles_not_resent_witness :
  is_sent (history (update_history (λ _, 20 * hour)%Z (21 * hour) no_history
                      [gpt_update; gpt_short]))
          (url gpt_short) = true ∧
  ∀ fuzz_ratio later b,
    b ∈ deduplicate fuzz_ratio
          (update_history (λ _, 20 * hour)%Z (21 * hour) no_history
             [gpt_update; gpt_short]) later →
    url b ≠ url gpt_short.
Proof.
  apply (sent_articles_not_resent (λ _, 20 * hour)%Z (21 * hour) no_history
           [gpt_update; gpt_short] gpt_short).
  - intros j _. vm_compute. discriminate.
  - right. left.
Defined.

Example old_entry_is_pruned :
  history (update_history (λ _, 800 * hour)%Z (800 * hour) sent_breaking_1
             [gpt_short]) !! "https://example.com/1" = None ∧
  is_sent (history (update_history (λ _, 800 * hour)%Z (800 * hour)
                      sent_breaking_1 [gpt_short]))
          "https://example.com/3" = true.
Proof. vm_compute. split; reflexivity. Qed.

End HistoryFacts.

(** ** More on the provider metrics *)

Module MetricsMore.
Import Metrics Lookups MetricsFacts.
Local Open Scope Z_scope.

(** X7.  Starting from any metrics, a sequence of recorded calls adds its
    length to [total_requests], the number of its successes to
    [successful_requests], the number of its failures to
    [failed_requests], and the tokens of its successes to the two token
    totals; the provider id is left as it is. *)
Theorem metrics_counts (m : ProviderMetrics) (calls : list call) :
  total_requests (run calls m) = total_requests m + Z.of_nat (length calls) ∧
  successful_requests (run calls m)
  = successful_requests m
    + Z.of_nat (length (filter (λ c, is_failure c = false) calls)) ∧
  failed_requests (run calls m)
  = failed_requests m
    + Z.of_nat (length (filter (λ c, is_failure c = true) calls)) ∧
  total_input_tokens (run calls m)
  = fold_left Z.add (call_input_tokens <$> calls) (total_input_tokens m) ∧
  total_output_tokens (run calls m)
  = fold_left Z.add (call_output_tokens <$> calls) (total_output_tokens m) ∧
  metrics_provider_id (run calls m) = metrics_provider_id m.
Proof.
  induction calls as [|c calls (Ht & Hs & Hf & Hi & Ho & Hid)] using rev_ind.
  - simpl. repeat split; lia.
  - rewrite run_snoc, !filter_app, !length_app, fmap_app, fmap_app,
      !fold_left_app.
    destruct c as [latency i o|error]; simpl;
      rewrite ?Ht, ?Hs, ?Hf, ?Hi, ?Ho, ?Hid; repeat split; lia.
Qed.

(** X8.  On fresh metrics, [consecutive_failures] is never negative and
    never above [failed_requests], and no counter of requests is
    negative. *)
Theorem metrics_streak_bound (id : string) (calls : list call) :
  0 <= consecutive_failures (run calls (fresh id))
    <= failed_requests (run calls (fresh id)) ∧
  0 <= successful_requests (run calls (fresh id))
    <= total_requests (run calls (fresh id)).
Proof.
  induction calls as [|c calls IH] using rev_ind.
  - simpl. lia.
  - rewrite run_snoc. destruct c; simpl; lia.
Qed.

End MetricsMore.

(** ** More on the selector and the registry *)

Module ProvidersMore.
Import Providers PyFacts Scenarios ProvidersFacts SummarizerFacts.

(** The stable sort by an integer key keeps the order of the elements
    that have one key. *)
Lemma sort_insert_same_key {A} (key : A → Z) (p : Z) (x : A) (l : list A) :
  filter (λ c, key c = p) (sort_insert Z.ltb key x l)
  = filter (λ c, key c = p) (x :: l).
Proof.
  induction l as [|y l IH]; simpl; [done|].
  destruct (Z.ltb_spec (key y) (key x)) as [Hlt|Hge]; [|done].
  destruct (decide (key y = p)) as [Hy|Hy].
  - rewrite (filter_cons_True _ y) by done. rewrite IH.
    rewrite (filter_cons_False _ x) by lia.
    rewrite (filter_cons_False _ x) by lia.
    by rewrite (filter_cons_True _ y) by done.
  - rewrite (filter_cons_False _ y) by done. rewrite IH.
    destruct (decide (key x = p)).
    + rewrite !(filter_cons_True _ x) by done.
      by rewrite (filter_cons_False _ y) by done.
    + rewrite !(filter_cons_False _ x) by done.
      by rewrite (filter_cons_False _ y) by done.
Qed.

Lemma sort_by_same_key {A} (key : A → Z) (p : Z) (l : list A) :
  filter (λ c, key c = p) (sort_by Z.ltb key l) = filter (λ c, key c = p) l.
Proof.
  induction l as [|x l IH]; simpl; [done|].
  rewrite sort_insert_same_key.
  destruct (decide (key x = p)).
  - rewrite !(filter_cons_True _ x) by done. by rewrite IH.
  - rewrite !(filter_cons_False _ x) by done. by rewrite IH.
Qed.

(** X9.  Under the "priority" strategy the order lists the enabled
    configurations so that every one has a priority number not above
    that of every later one, and configurations with one priority number
    keep the order in which they are configured. *)
Theorem priority_order_stable (configs : list ProviderConfig) :
  ∃ sorted,
    get_provider_chain (new_selector configs "priority") = provider_id <$> sorted ∧
    StronglySorted (λ a b, (priority a <= priority b)%Z) sorted ∧
    ∀ p, filter (λ c, priority c = p) sorted
         = filter (λ c, priority c = p) (filter (λ c, enabled c = true) configs).
Proof.
  exists (sort_by Z.ltb priority (filter (λ c, enabled c = true) configs)).
  split; [done|]. split.
  - apply Sorted_StronglySorted; [|apply sort_by_sorted].
    intros a b c ? ?. lia.
  - intros p. apply sort_by_same_key.
Qed.

Lemma new_registry_snoc (configs : list ProviderConfig) (c : ProviderConfig) :
  new_registry (configs ++ [c]) = registry_step (new_registry configs) c.
Proof. unfold new_registry. by rewrite fold_left_app. Qed.

(** One configuration either extends the registry or stops its
    construction with the [ValueError] that names its type. *)
Lemma registry_step_cases (ps : gmap string AIProvider) (c : ProviderConfig) :
  ((enabled c = true →
    provider_type c = "anthropic" ∨ provider_type c = "openai") ∧
   ∃ ps', registry_step (Ok ps) c = Ok ps') ∨
  ((enabled c = true ∧ provider_type c ≠ "anthropic"
    ∧ provider_type c ≠ "openai") ∧
   registry_step (Ok ps) c
   = Raise (ValueError ("Unknown provider type: " +:+ provider_type c))).
Proof.
  unfold registry_step. destruct (enabled c); simpl.
  - repeat case_decide; [left|left|right]; eauto.
  - left. split; [done|eauto].
Qed.

Lemma registry_fold_first_unknown (configs : list ProviderConfig)
    (ps : gmap string AIProvider) :
  Exists (λ c, enabled c = true ∧ provider_type c ≠ "anthropic"
               ∧ provider_type c ≠ "openai") configs →
  ∃ before c after,
    configs = before ++ c :: after ∧
    Forall (λ c, enabled c = true →
                 provider_type c = "anthropic" ∨ provider_type c = "openai")
           before ∧
    (enabled c = true ∧ provider_type c ≠ "anthropic"
     ∧ provider_type c ≠ "openai") ∧
    fold_left registry_step configs (Ok ps)
    = Raise (ValueError ("Unknown provider type: " +:+ provider_type c)).
Proof.
  revert ps. induction configs as [|c configs IH]; intros ps Hbad.
  - by apply Exists_nil in Hbad.
  - cbn [fold_left].
    destruct (registry_step_cases ps c) as [[Hgood [ps' ->]]|[Hc ->]].
    + apply Exists_cons in Hbad as [(Hen & Ha & Ho)|Hbad].
      { by destruct (Hgood Hen). }
      destruct (IH ps' Hbad) as (before & c' & after & -> & Hbefore & Hc' & Hf).
      exists (c :: before), c', after.
      split; [done|]. split; [by constructor|]. by split.
    + exists [], c, configs.
      split; [done|]. split; [constructor|]. split; [done|].
      apply registry_fold_raise.
Qed.

(** X10.  The registry cannot be built exactly when an enabled
    configuration has a type other than "anthropic" and "openai": the
    construction raises the [ValueError] whose message ends with the type
    of the first such configuration; a disabled configuration is skipped
    whatever its type.  When the registry is built, [get_provider] returns
    a provider for the ids of the enabled configurations, and for every
    other id it raises the [ValueError] whose message ends with that
    id. *)
Theorem registry_construction (configs : list ProviderConfig) :
  (Exists (λ c, enabled c = true ∧ provider_type c ≠ "anthropic"
                ∧ provider_type c ≠ "openai") configs →
   ∃ before c after,
     configs = before ++ c :: after ∧
     Forall (λ c, enabled c = true →
                  provider_type c = "anthropic" ∨ provider_type c = "openai")
            before ∧
     (enabled c = true ∧ provider_type c ≠ "anthropic"
      ∧ provider_type c ≠ "openai") ∧
     new_registry configs
     = Raise (ValueError ("Unknown provider type: " +:+ provider_type c))) ∧
  (Forall (λ c, enabled c = true →
                provider_type c = "anthropic" ∨ provider_type c = "openai")
          configs →
   ∃ reg,
     new_registry configs = Ok reg ∧
     ∀ id,
       (id ∈ provider_id <$> filter (λ c, enabled c = true) configs →
        ∃ p, get_provider reg id = Ok p) ∧
       (id ∉ provider_id <$> filter (λ c, enabled c = true) configs →
        get_provider reg id
        = Raise (ValueError ("Provider not found: " +:+ id)))).
Proof.
  split.
  - apply registry_fold_first_unknown.
  - induction configs as [|c configs IH] using rev_ind.
    + intros _. exists ∅. split; [done|]. intros id. split.
      * by intros ?%elem_of_nil.
      * intros _. unfold get_provider. by rewrite lookup_empty.
    + intros [Hgood [Hc _]%Forall_cons]%Forall_app.
      destruct (IH Hgood) as (reg & Hreg & Hget).
      rewrite new_registry_snoc, Hreg.
      rewrite filter_app, fmap_app.
      destruct (enabled c) eqn:Hen.
      * assert (∃ b, registry_step (Ok reg) c
                     = Ok (<[provider_id c :=
                               mkAIProvider b (provider_id c) c]> reg))
          as [b ->].
        { unfold registry_step. rewrite Hen. simpl.
          destruct (Hc eq_refl) as [Ht|Ht].
          - exists AnthropicProvider. by rewrite decide_True.
          - exists OpenAIProvider. case_decide; [congruence|].
            by rewrite decide_True. }
        eexists. split; [done|]. intros id.
        rewrite filter_cons_True, filter_nil by done.
        unfold get_provider. split.
        -- intros [Hid|Hid%list_elem_of_singleton]%elem_of_app.
           ++ destruct (decide (provider_id c = id)) as [<-|Hne].
              ** rewrite lookup_insert_eq. by eexists.
              ** rewrite lookup_insert_ne by done. by apply Hget.
           ++ subst id. rewrite lookup_insert_eq. by eexists.
        -- intros Hid. rewrite lookup_insert_ne.
           ++ apply Hget. intros ?. apply Hid, elem_of_app. by left.
           ++ intros <-. apply Hid, elem_of_app. right. left.
      * exists reg. split; [by unfold registry_step; rewrite Hen|]. intros id.
        rewrite filter_cons_False, filter_nil by (by rewrite Hen).
        rewrite fmap_nil, app_nil_r. apply Hget.
Qed.

(** X11.  In a registry that is built, the provider of an id is made
    from the last enabled configuration with that id: it carries that id
    and that configuration, and its class is the one of the type of that
    configuration. *)
Theorem registry_last_wins (configs : list ProviderConfig)
    (reg : gmap string AIProvider) (id : string) (p : AIProvider) :
  new_registry configs = Ok reg →
  reg !! id = Some p →
  last (filter (λ c, enabled c = true ∧ provider_id c = id) configs)
  = Some (provider_config p) ∧
  provider_name p = id ∧
  ((provider_type (provider_config p) = "anthropic"
    ∧ provider_backend p = AnthropicProvider) ∨
   (provider_type (provider_config p) = "openai"
    ∧ provider_backend p = OpenAIProvider)).
Proof.
  revert reg. induction configs as [|c configs IH] using rev_ind; intros reg.
  - intros [= <-]. by rewrite lookup_empty.
  - rewrite new_registry_snoc.
    destruct (new_registry configs) as [ps|e]; [|done]. simpl.
    rewrite filter_app.
    destruct (enabled c) eqn:Hen; simpl.
    + assert (∀ b, (b = AnthropicProvider ∧ provider_type c = "anthropic") ∨
                   (b = OpenAIProvider ∧ provider_type c = "openai") →
               <[provider_id c := mkAIProvider b (provider_id c) c]> ps !! id
               = Some p →
               last (filter (λ c0, enabled c0 = true ∧ provider_id c0 = id)
                       configs
                     ++ filter (λ c0, enabled c0 = true ∧ provider_id c0 = id)
                          [c])
               = Some (provider_config p) ∧
               provider_name p = id ∧
               ((provider_type (provider_config p) = "anthropic"
                 ∧ provider_backend p = AnthropicProvider) ∨
                (provider_type (provider_config p) = "openai"
                 ∧ provider_backend p = OpenAIProvider))) as Hins.
      { intros b Hb Hp. destruct (decide (provider_id c = id)) as [<-|Hne].
        - rewrite lookup_insert_eq in Hp. injection Hp as <-.
          rewrite filter_cons_True, filter_nil by done.
          rewrite last_snoc. simpl. split; [done|]. split; [done|].
          destruct Hb as [[-> ?]|[-> ?]]; auto.
        - rewrite lookup_insert_ne in Hp by done.
          rewrite filter_cons_False, filter_nil, app_nil_r by tauto.
          by apply (IH ps). }
      repeat case_decide; intros [= <-].
      * apply (Hins AnthropicProvider); auto.
      * apply (Hins OpenAIProvider); auto.
    + intros [= <-] Hp.
      rewrite filter_cons_False, filter_nil, app_nil_r
        by (rewrite Hen; intros [? _]; done).
      by apply (IH ps).
Qed.

Lemma registry_last_wins_witness :
  last (filter (λ c, enabled c = true ∧ provider_id c = "openai_fallback")
          three_providers)
  = Some (provider "openai_fallback" "openai" true 2) ∧
  provider_name (mkAIProvider OpenAIProvider "openai_fallback"
                   (provider "openai_fallback" "openai" true 2))
  = "openai_fallback" ∧
  ((provider_type (provider "openai_fallback" "openai" true 2) = "anthropic"
    ∧ OpenAIProvider = AnthropicProvider) ∨
   (provider_type (provider "openai_fallback" "openai" true 2) = "openai"
    ∧ OpenAIProvider = OpenAIProvider)).
Proof.
  apply (registry_last_wins three_providers
           (Summarizer.registry the_summarizer) "openai_fallback"
           (mkAIProvider OpenAIProvider "openai_fallback"
              (provider "openai_fallback" "openai" true 2))).
  - vm_compute. reflexivity.
  - vm_compute. reflexivity.
Defined.

Example registry_unknown_type :
  new_registry [provider "a" "anthropic" true 1; provider "g" "gemini" false 2]
  = Ok {[ "a" := mkAIProvider AnthropicProvider "a"
                   (provider "a" "anthropic" true 1) ]} ∧
  new_registry [provider "a" "anthropic" true 1; provider "g" "gemini" true 2]
  = Raise (ValueError "Unknown provider type: gemini") ∧
  get_provider (Summarizer.registry the_summarizer) "openai_spare"
  = Raise (ValueError "Provider not found: openai_spare").
Proof. vm_compute. repeat split; reflexivity. Qed.

End ProvidersMore.

(** ** More on the ranker *)

Module RankerMore.
Import Ranker Readings Lookups Scenarios PyFacts DedupFacts RankerFacts.

(** *** Buckets *)

Lemma bucket_append_bucket (t t' : string) (ra : RankedArticle)
    (groups : list (string * list RankedArticle)) :
  bucket t (bucket_append t' ra groups)
  = if decide (t = t') then bucket t groups ++ [ra] else bucket t groups.
Proof.
  induction groups as [|[t0 l] groups IH]; cbn [bucket_append bucket].
  - destruct (decide (t' = t)), (decide (t = t')); simpl; congruence.
  - destruct (decide (t0 = t')) as [->|Hne]; cbn [bucket].
    + destruct (decide (t' = t)), (decide (t = t')); simpl; congruence.
    + rewrite IH.
      destruct (decide (t0 = t)), (decide (t = t')); simpl; congruence.
Qed.

Lemma group_fold_bucket (t : string) (ranked : list RankedArticle)
    (groups : list (string * list RankedArticle)) :
  bucket t (fold_left (λ groups ra, bucket_append (topic (article ra)) ra groups)
              ranked groups)
  = bucket t groups ++ filter (λ ra, topic (article ra) = t) ranked.
Proof.
  revert groups. induction ranked as [|ra ranked IH]; intros groups;
    cbn [fold_left].
  - by rewrite app_nil_r.
  - rewrite IH, bucket_append_bucket.
    destruct (decide (t = topic (article ra))) as [->|Hne].
    + rewrite filter_cons_True by done. by rewrite <- (assoc (++)).
    + by rewrite filter_cons_False by done.
Qed.

(** The bucket of a topic holds the articles of that topic, in the order
    of the input. *)
Lemma group_by_topic_bucket (t : string) (ranked : list RankedArticle) :
  bucket t (group_by_topic ranked) = filter (λ ra, topic (article ra) = t) ranked.
Proof. unfold group_by_topic. by rewrite group_fold_bucket. Qed.

Lemma filter_all {A} (P : A → Prop) `{∀ x, Decision (P x)} (l : list A) :
  (∀ x, x ∈ l → P x) → filter P l = l.
Proof.
  induction l as [|x l IH]; intros Hl; [done|].
  rewrite filter_cons_True by (apply Hl; left).
  f_equal. apply IH. intros y Hy. apply Hl. by right.
Qed.

Lemma slice_to_nil {A} (m : Z) : slice_to m ([] : list A) = [].
Proof. unfold slice_to. destruct (0 <=? m)%Z; apply take_nil. Qed.

Section PerTopic.
Variable topics : gmap string TopicConfig.

Lemma topic_step_nil (T : string) : topic_step topics [] (T, []) = [].
Proof.
  unfold topic_step. cbn [fst snd]. destruct (topics !! T) as [cfg|]; [|done].
  rewrite filter_nil. cbn. apply slice_to_nil.
Qed.

Lemma output_of_topic (T : string)
    (groups : list (string * list RankedArticle)) :
  NoDup groups.*1 →
  Forall (λ item, Forall (λ r, topic (article r) = item.1) item.2) groups →
  filter (λ ra, topic (article ra) = T)
         (mjoin (topic_step topics [] <$> groups))
  = topic_step topics [] (T, bucket T groups).
Proof.
  intros Hnd Hfiled.
  induction Hfiled as [|[t l] groups Hi Hg IH].
  - by rewrite topic_step_nil.
  - rewrite fmap_cons in Hnd. apply NoDup_cons in Hnd as [Hnin Hnd].
    change (mjoin (topic_step topics [] <$> (t, l) :: groups))
      with (topic_step topics [] (t, l)
            ++ mjoin (topic_step topics [] <$> groups)).
    rewrite filter_app. cbn [bucket]. simpl in Hnin, Hi.
    destruct (decide (t = T)) as [->|Hne].
    + rewrite (output_absent_topic topics T groups) by done.
      rewrite app_nil_r. apply filter_all.
      intros ra Hra. apply topic_output_elem in Hra as (_ & _ & Hra & _).
      rewrite Forall_forall in Hi. by apply Hi.
    + rewrite (topic_output_other topics T (t, l)) by done. by apply IH.
Qed.
End PerTopic.

(** The part of one topic in the output of the loop over the groups. *)
Lemma topic_part (topics : gmap string TopicConfig) (T : string)
    (ranked : list RankedArticle) :
  filter (λ ra, topic (article ra) = T)
    (fold_left (topic_step topics) (group_by_topic ranked) [])
  = topic_step topics [] (T, filter (λ ra, topic (article ra) = T) ranked).
Proof.
  destruct (group_by_topic_inv ranked) as [Hnd Hfiled].
  rewrite fold_topic_step. cbn [app].
  rewrite output_of_topic by done. by rewrite group_by_topic_bucket.
Qed.

(** X12.  The articles of one topic in the output of [rank_and_filter],
    in their order there: none for a topic without a configuration; else
    the articles of the topic, in input order and scored at their
    readings of the clock, that reach the threshold, sorted by descending
    score with ties in input order, and cut to the daily cap. *)
Theorem rank_and_filter_per_topic (topics : gmap string TopicConfig)
    (clock : nat → Z) (articles : list Article) (T : string) :
  filter (λ ra, topic (article ra) = T) (rank_and_filter topics clock articles)
  = match topics !! T with
    | None => []
    | Some cfg =>
        slice_to (max_articles_per_day cfg)
          (sort_by (λ k1 k2, PrimFloat.ltb k2 k1) quality_score
             (filter (λ ra, PrimFloat.leb (min_quality_score cfg)
                                          (quality_score ra) = true)
                (filter (λ ra, topic (article ra) = T)
                   (imap (λ i a, mkRankedArticle a
                                   (calculate_score topics (clock i) a))
                         articles))))
    end.
Proof.
  unfold rank_and_filter. destruct articles as [|a articles].
  - destruct (topics !! T) as [cfg|]; [|done].
    cbn. by rewrite slice_to_nil.
  - rewrite topic_part. unfold topic_step. cbn [fst snd].
    by destruct (topics !! T).
Qed.

(** X13.  For a topic with a configuration whose cap is not negative,
    the output holds exactly as many articles of the topic as the cap
    allows: the smaller of the cap and the number of input articles of
    the topic that reach the threshold. *)
Theorem rank_and_filter_count (topics : gmap string TopicConfig)
    (clock : nat → Z) (articles : list Article) (T : string) (cfg : TopicConfig) :
  topics !! T = Some cfg →
  (0 <= max_articles_per_day cfg)%Z →
  Z.of_nat (length (filter (λ ra, topic (article ra) = T)
                      (rank_and_filter topics clock articles)))
  = Z.min (max_articles_per_day cfg)
      (Z.of_nat (length
         (filter (λ ra, PrimFloat.leb (min_quality_score cfg)
                                      (quality_score ra) = true)
            (filter (λ ra, topic (article ra) = T)
               (imap (λ i a, mkRankedArticle a
                               (calculate_score topics (clock i) a))
                     articles))))).
Proof.
  intros Hcfg Hcap. unfold rank_and_filter. destruct articles as [|a articles].
  - cbn. lia.
  - rewrite topic_part. unfold topic_step. cbn [fst snd]. rewrite Hcfg.
    cbn [app]. unfold slice_to.
    destruct (Z.leb_spec 0 (max_articles_per_day cfg)); [|lia].
    rewrite length_take.
    rewrite (Permutation_length (sort_by_perm _ _ _)). lia.
Qed.

Lemma rank_and_filter_count_witness :
  Z.of_nat (length (filter (λ ra, topic (article ra) = "ai")
                      (rank_and_filter ai_topic (λ _, 11 * hour)%Z
                         [gpt_last; robot_story; gpt_update; gpt_short])))
  = 2%Z.
Proof.
  refine (rank_and_filter_count ai_topic (λ _, 11 * hour)%Z
            [gpt_last; robot_story; gpt_update; gpt_short] "ai"
            (mkTopicConfig "cs_student" false None 0.4 2 ["Source A"]) _ _).
  - reflexivity.
  - simpl. lia.
Defined.

(** *** Where the output comes from *)

Lemma bucket_append_perm (t : string) (ra : RankedArticle)
    (groups : list (string * list RankedArticle)) :
  mjoin (bucket_append t ra groups).*2 ≡ₚ ra :: mjoin groups.*2.
Proof.
  induction groups as [|[t' l] groups IH]; cbn [bucket_append].
  - done.
  - destruct (decide (t' = t)) as [->|Hne]; rewrite !fmap_cons; cbn [snd].
    + change (mjoin ((l ++ [ra]) :: groups.*2))
        with ((l ++ [ra]) ++ mjoin groups.*2).
      change (mjoin (l :: groups.*2)) with (l ++ mjoin groups.*2).
      rewrite <- (assoc (++)). cbn [app]. by rewrite <- Permutation_middle.
    + change (mjoin (l :: (bucket_append t ra groups).*2))
        with (l ++ mjoin (bucket_append t ra groups).*2).
      change (mjoin (l :: groups.*2)) with (l ++ mjoin groups.*2).
      rewrite IH. by rewrite <- Permutation_middle.
Qed.

(** The buckets hold the ranked articles, each once. *)
Lemma group_fold_perm (ranked : list RankedArticle)
    (groups : list (string * list RankedArticle)) :
  mjoin (fold_left (λ groups ra, bucket_append (topic (article ra)) ra groups)
           ranked groups).*2
  ≡ₚ mjoin groups.*2 ++ ranked.
Proof.
  revert groups. induction ranked as [|ra ranked IH]; intros groups;
    cbn [fold_left].
  - by rewrite app_nil_r.
  - rewrite IH, bucket_append_perm. by rewrite <- Permutation_middle.
Qed.

Lemma topic_output_submseteq (topics : gmap string TopicConfig)
    (item : string * list RankedArticle) :
  topic_step topics [] item ⊆+ item.2.
Proof.
  unfold topic_step. destruct (topics !! item.1) as [cfg|]; cbn [app].
  - etrans; [apply sublist_submseteq, slice_to_sublist|].
    rewrite sort_by_perm. apply sublist_submseteq, sublist_filter.
  - apply submseteq_nil_l.
Qed.

(** X20.  Every entry of the output of [rank_and_filter] is an article
    of the input with its score at its reading of the clock, and no
    article is in the output more often than in the input; so the output
    is no longer than the input. *)
Theorem rank_and_filter_from_input (topics : gmap string TopicConfig)
    (clock : nat → Z) (articles : list Article) :
  rank_and_filter topics clock articles
  ⊆+ imap (λ i a, mkRankedArticle a (calculate_score topics (clock i) a))
          articles ∧
  length (rank_and_filter topics clock articles) ≤ length articles.
Proof.
  assert (rank_and_filter topics clock articles
          ⊆+ imap (λ i a, mkRankedArticle a (calculate_score topics (clock i) a))
                  articles) as Hsub.
  { unfold rank_and_filter. destruct articles as [|a articles]; [done|].
    set (ranked := imap _ (a :: articles)).
    rewrite fold_topic_step. cbn [app].
    etrans; [|apply Permutation_submseteq;
               apply (group_fold_perm ranked [])].
    fold (group_by_topic ranked).
    induction (group_by_topic ranked) as [|item groups IH]; [done|].
    rewrite !fmap_cons.
    change (mjoin (topic_step topics [] item :: (topic_step topics [] <$> groups)))
      with (topic_step topics [] item ++ mjoin (topic_step topics [] <$> groups)).
    change (mjoin (item.2 :: groups.*2)) with (item.2 ++ mjoin groups.*2).
    apply submseteq_app; [apply topic_output_submseteq|apply IH]. }
  split; [done|].
  apply submseteq_length in Hsub. by rewrite length_imap in Hsub.
Qed.

(** *** The order of the output *)

(** The three checks by evaluation. *)
Lemma scores_are_grades : forallb score_is_grade (seqZ 0 1501) = true.
Proof. vm_compute. reflexivity. Qed.

Lemma grades_read_back : forallb grade_reads_back (seqZ 0 1001) = true.
Proof. vm_compute. reflexivity. Qed.

Lemma grades_compare_all : forallb grades_compare grade_table = true.
Proof. vm_compute. reflexivity. Qed.

(** Every score is a grade [k / 1000] with [0 <= k <= 1000]. *)
Lemma calculate_score_grade (topics : gmap string TopicConfig) (now : Z)
    (a : Article) :
  ∃ k, (0 <= k <= 1000)%Z ∧ calculate_score topics now a = grade k.
Proof.
  set (L := Z.of_nat (String.length (content a))).
  assert (∃ L', (0 <= L' < 1501)%Z ∧ content_depth L = content_depth L')
    as (L' & HL' & HL).
  { destruct (decide (L < 1500)%Z).
    - exists L. split; [lia|done].
    - exists 1500%Z. split; [lia|]. apply content_depth_cap. lia. }
  pose proof scores_are_grades as Hall. rewrite forallb_forall in Hall.
  assert (In L' (seqZ 0 1501)) as Hin by (apply list_elem_of_In, elem_of_seqZ; lia).
  apply Hall in Hin. unfold score_is_grade in Hin.
  rewrite forallb_forall in Hin.
  specialize (Hin _ (recency_in_values (now - published_at a))).
  rewrite forallb_forall in Hin.
  specialize (Hin _ (source_trust_in_values topics a)).
  unfold calculate_score, _score_content_depth, _score_recency, round3.
  fold L. rewrite HL.
  destruct (round_scaled 1000 _) as [k|]; [|done].
  apply andb_true_iff in Hin as [?%Z.leb_le ?%Z.leb_le].
  exists k. split; [lia|done].
Qed.

Lemma grade_in_table (k : Z) :
  (0 <= k <= 1000)%Z → In (k, grade k) grade_table.
Proof.
  intros Hk. apply list_elem_of_In. unfold grade_table.
  apply (list_elem_of_fmap_2 (λ k, (k, grade k))). apply elem_of_seqZ. lia.
Qed.

Lemma grade_ltb (k k' : Z) :
  (0 <= k <= 1000)%Z → (0 <= k' <= 1000)%Z →
  PrimFloat.ltb (grade k) (grade k') = (k <? k')%Z.
Proof.
  intros Hk Hk'. pose proof grades_compare_all as Hall.
  rewrite forallb_forall in Hall.
  pose proof (Hall _ (grade_in_table k Hk)) as Hrow.
  unfold grades_compare in Hrow. rewrite forallb_forall in Hrow.
  pose proof (Hrow _ (grade_in_table k' Hk')) as Heq.
  by apply Bool.eqb_prop in Heq.
Qed.

Lemma grade_thousandths (k : Z) :
  (0 <= k <= 1000)%Z → round_scaled 1000 (grade k) = Some k.
Proof.
  intros Hk. pose proof grades_read_back as Hall.
  rewrite forallb_forall in Hall.
  assert (In k (seqZ 0 1001)) as Hin by (apply list_elem_of_In, elem_of_seqZ; lia).
  apply Hall in Hin. unfold grade_reads_back in Hin.
  destruct (round_scaled 1000 (grade k)) as [k'|]; [|done].
  by apply Z.eqb_eq in Hin as ->.
Qed.

(** Scores of ranked articles compare as their thousandths do. *)
Lemma ranked_ltb (topics : gmap string TopicConfig) (clock : nat → Z)
    (articles : list Article) (x y : RankedArticle) :
  x ∈ imap (λ i a, mkRankedArticle a (calculate_score topics (clock i) a))
           articles →
  y ∈ imap (λ i a, mkRankedArticle a (calculate_score topics (clock i) a))
           articles →
  PrimFloat.ltb (quality_score x) (quality_score y)
  = (thousandths x <? thousandths y)%Z.
Proof.
  intros (i & a & -> & _)%elem_of_lookup_imap_1
         (j & b & -> & _)%elem_of_lookup_imap_1.
  unfold thousandths. simpl.
  destruct (calculate_score_grade topics (clock i) a) as (k & Hk & ->).
  destruct (calculate_score_grade topics (clock j) b) as (k' & Hk' & ->).
  rewrite !grade_thousandths by done. simpl. by apply grade_ltb.
Qed.

(** The descending stable sort, for keys that compare as integers. *)
Lemma sort_insert_desc {A} (key : A → float) (rank : A → Z) (x : A) (l : list A) :
  (∀ y, y ∈ l → PrimFloat.ltb (key x) (key y) = (rank x <? rank y)%Z) →
  StronglySorted (λ a b, (rank b <= rank a)%Z) l →
  StronglySorted (λ a b, (rank b <= rank a)%Z)
    (sort_insert (λ k1 k2, PrimFloat.ltb k2 k1) key x l).
Proof.
  intros Hx Hl. induction Hl as [|y l Hl IH Hy]; cbn [sort_insert].
  - repeat constructor.
  - rewrite (Hx y) by left.
    destruct (Z.ltb_spec (rank x) (rank y)) as [Hlt|Hge].
    + constructor.
      * apply IH. intros z Hz. apply Hx. by right.
      * rewrite sort_insert_perm. constructor; [lia|done].
    + constructor; [by constructor|]. constructor; [done|].
      rewrite Forall_forall in *. intros z Hz. specialize (Hy z Hz). lia.
Qed.

Lemma sort_by_desc {A} (key : A → float) (rank : A → Z) (l : list A) :
  (∀ x y, x ∈ l → y ∈ l →
     PrimFloat.ltb (key x) (key y) = (rank x <? rank y)%Z) →
  StronglySorted (λ a b, PrimFloat.ltb (key a) (key b) = false)
    (sort_by (λ k1 k2, PrimFloat.ltb k2 k1) key l).
Proof.
  intros Hcmp.
  assert (StronglySorted (λ a b, (rank b <= rank a)%Z)
            (sort_by (λ k1 k2, PrimFloat.ltb k2 k1) key l)) as Hs.
  { induction l as [|x l IH]; [constructor|].
    change (sort_by (λ k1 k2, PrimFloat.ltb k2 k1) key (x :: l))
      with (sort_insert (λ k1 k2, PrimFloat.ltb k2 k1) key x
              (sort_by (λ k1 k2, PrimFloat.ltb k2 k1) key l)).
    apply sort_insert_desc.
    - intros y Hy. rewrite sort_by_perm in Hy.
      apply Hcmp; [left|by right].
    - apply IH. intros y z Hy Hz. apply Hcmp; by right. }
  assert (∀ x, x ∈ sort_by (λ k1 k2, PrimFloat.ltb k2 k1) key l → x ∈ l) as Hin.
  { intros x Hx. by rewrite sort_by_perm in Hx. }
  induction Hs as [|x s Hs IH Hx]; constructor.
  - apply IH. intros y Hy. apply Hin. by right.
  - rewrite Forall_forall in *. intros y Hy.
    rewrite Hcmp; [|apply Hin; left|apply Hin; by right].
    apply Z.ltb_ge. by apply Hx.
Qed.

(** The sorted list of the articles of a topic that reach the threshold
    is in non-increasing score order. *)
Lemma qualifying_sorted (topics : gmap string TopicConfig) (clock : nat → Z)
    (articles : list Article) (T : string) (cfg : TopicConfig) :
  StronglySorted
    (λ x y, PrimFloat.ltb (quality_score x) (quality_score y) = false)
    (sort_by (λ k1 k2, PrimFloat.ltb k2 k1) quality_score
       (filter (λ ra, PrimFloat.leb (min_quality_score cfg)
                                    (quality_score ra) = true)
          (filter (λ ra, topic (article ra) = T)
             (imap (λ i a, mkRankedArticle a
                             (calculate_score topics (clock i) a))
                   articles)))).
Proof.
  apply (sort_by_desc _ thousandths). intros x y Hx Hy.
  apply (ranked_ltb topics clock articles).
  - by apply list_elem_of_filter in Hx as [_ [_ ?]%list_elem_of_filter].
  - by apply list_elem_of_filter in Hy as [_ [_ ?]%list_elem_of_filter].
Qed.

(** X14.  In the output of [rank_and_filter] the articles of one topic
    stand in non-increasing score order: none comes before an article of
    its topic with a strictly higher score. *)
Theorem rank_and_filter_descending (topics : gmap string TopicConfig)
    (clock : nat → Z) (articles : list Article) (T : string) :
  StronglySorted
    (λ x y, PrimFloat.ltb (quality_score x) (quality_score y) = false)
    (filter (λ ra, topic (article ra) = T)
       (rank_and_filter topics clock articles)).
Proof.
  unfold rank_and_filter. destruct articles as [|a articles]; [constructor|].
  rewrite topic_part. unfold topic_step. cbn [fst snd].
  destruct (topics !! T) as [cfg|]; [|constructor]. cbn [app].
  eapply StronglySorted_sublist; [apply slice_to_sublist|].
  apply qualifying_sorted.
Qed.

(** X15.  The cap cuts from the low end: an input article of a configured
    topic that reaches the threshold and is not in the output has a score
    that is not above the score of any article of its topic in the
    output. *)
Theorem rank_and_filter_keeps_best (topics : gmap string TopicConfig)
    (clock : nat → Z) (articles : list Article) (T : string) (cfg : TopicConfig)
    (ra x : RankedArticle) :
  topics !! T = Some cfg →
  ra ∈ imap (λ i a, mkRankedArticle a (calculate_score topics (clock i) a))
            articles →
  topic (article ra) = T →
  PrimFloat.leb (min_quality_score cfg) (quality_score ra) = true →
  ra ∉ rank_and_filter topics clock articles →
  x ∈ rank_and_filter topics clock articles →
  topic (article x) = T →
  PrimFloat.ltb (quality_score x) (quality_score ra) = false.
Proof.
  intros Hcfg Hra HT Hmin Hout Hx HxT.
  assert (x ∈ filter (λ ra, topic (article ra) = T)
                (rank_and_filter topics clock articles)) as Hx'
    by (by apply list_elem_of_filter).
  assert (ra ∉ filter (λ ra, topic (article ra) = T)
                 (rank_and_filter topics clock articles)) as Hout'
    by (by intros [_ ?]%list_elem_of_filter).
  revert Hx' Hout'. unfold rank_and_filter.
  destruct articles as [|a articles]; [by intros ?%elem_of_nil|].
  rewrite topic_part. unfold topic_step. cbn [fst snd]. rewrite Hcfg. cbn [app].
  set (ranked := imap _ (a :: articles)) in *.
  pose proof (qualifying_sorted topics clock (a :: articles) T cfg) as Hs.
  fold ranked in Hs.
  set (S := sort_by _ quality_score _) in *.
  assert (ra ∈ S) as HraS.
  { unfold S. rewrite sort_by_perm. apply list_elem_of_filter. split; [done|].
    by apply list_elem_of_filter. }
  assert (∃ n, slice_to (max_articles_per_day cfg) S = take n S) as [n ->].
  { unfold slice_to. case_match; eauto. }
  intros Hx' Hout'. rewrite <- (take_drop n S) in Hs, HraS.
  apply elem_of_app in HraS as [?|HraS]; [done|].
  by eapply (StronglySorted_app_1_elem_of _ _ _ x ra Hs).
Qed.

Lemma rank_and_filter_keeps_best_witness :
  PrimFloat.ltb (quality_score (mkRankedArticle gpt_last 0.607))
                (quality_score (mkRankedArticle gpt_short 0.607)) = false.
Proof.
  apply (rank_and_filter_keeps_best ai_topic (λ _, 11 * hour)%Z
           [gpt_last; robot_story; gpt_update; gpt_short] "ai"
           (mkTopicConfig "cs_student" false None 0.4 2 ["Source A"])).
  - reflexivity.
  - apply list_elem_of_lookup. exists 3. vm_compute. reflexivity.
  - reflexivity.
  - vm_compute. reflexivity.
  - assert (rank_and_filter ai_topic (λ _, 11 * hour)%Z
              [gpt_last; robot_story; gpt_update; gpt_short]
            = [mkRankedArticle gpt_last 0.607; mkRankedArticle gpt_update 0.607])
      as -> by (vm_compute; reflexivity).
    intros [H|[H|H%elem_of_nil]%elem_of_cons]%elem_of_cons;
      [discriminate H|discriminate H|done].
  - apply list_elem_of_lookup. exists 0. vm_compute. reflexivity.
  - reflexivity.
Defined.

End RankerMore.

(** ** More on the fallback walk *)

Module SummarizerMore.
Import Providers Summarizer Readings Scenarios ProvidersFacts SummarizerFacts.

Section Walk.
Variable str_format : string → string → string → string → result string.
Variable summarize_async :
  nat → AIProvider → Article → string → Z → float →
  result (list string * gmap string Z).
Variables (a : Article) (audience topic : string).

Lemma same_setup_trans (s1 s2 s3 : MultiProviderSummarizer) :
  same_setup s1 s2 → same_setup s2 s3 → same_setup s1 s3.
Proof.
  intros (? & ? & ? & ? & ?) (? & ? & ? & ? & ?). repeat split; congruence.
Qed.

(** When every id of the chain is registered the walk returns an
    article, and the fields of the summarizer other than the two token
    totals are as before. *)
Lemma walk_returns (chain : list string) (i : nat)
    (self : MultiProviderSummarizer) :
  (∀ id, id ∈ chain → is_Some (registry self !! id)) →
  ∃ s self',
    walk str_format summarize_async a audience topic i chain self = (Ok s, self') ∧
    base s = a ∧ audience_level s = audience ∧ same_setup self self'.
Proof.
  revert i self. induction chain as [|id chain IH]; intros i self Hreg.
  - eexists _, _. split; [done|]. repeat split.
  - destruct (Hreg id) as [p Hp]; [left|].
    assert (∀ self1, same_setup self self1 →
              ∃ s self',
                walk str_format summarize_async a audience topic (S i) chain self1
                = (Ok s, self') ∧
                base s = a ∧ audience_level s = audience ∧ same_setup self self')
      as Hnext.
    { intros self1 Hsame. destruct (IH (S i) self1) as (s & self' & ? & ? & ? & ?).
      - intros id' Hid'. destruct Hsame as [-> _]. apply Hreg. by right.
      - exists s, self'. split; [done|]. split; [done|]. split; [done|].
        by eapply same_setup_trans. }
    cbn [walk]. unfold get_provider. rewrite Hp.
    destruct (_create_prompt str_format self a audience topic) as [prompt|e];
      [|apply Hnext, same_setup_refl].
    destruct (summarize_async i p a prompt _ _) as [[bullets usage]|e];
      [|apply Hnext, same_setup_refl].
    destruct (length bullets <? 3)%nat.
    + apply Hnext. apply same_setup_add_tokens, same_setup_refl.
    + eexists _, _. split; [done|]. repeat split.
Qed.

Lemma walk_tokens (chain : list string) (i : nat)
    (self : MultiProviderSummarizer) :
  (∀ j p prompt max_tokens temperature bullets usage,
     summarize_async j p a prompt max_tokens temperature = Ok (bullets, usage) →
     (0 <= default 0 (usage !! "input_tokens"))%Z ∧
     (0 <= default 0 (usage !! "output_tokens"))%Z) →
  (total_input_tokens self
   <= total_input_tokens
        (walk str_format summarize_async a audience topic i chain self).2)%Z ∧
  (total_output_tokens self
   <= total_output_tokens
        (walk str_format summarize_async a audience topic i chain self).2)%Z.
Proof.
  intros Husage. revert i self.
  induction chain as [|id chain IH]; intros i self; cbn [walk].
  - simpl. lia.
  - destruct (get_provider (registry self) id) as [p|e]; [|simpl; lia].
    destruct (_create_prompt str_format self a audience topic) as [prompt|e];
      [|apply IH].
    destruct (summarize_async i p a prompt _ _) as [[bullets usage]|e] eqn:Hr;
      [|apply IH].
    apply Husage in Hr as [Hin Hout].
    destruct (length bullets <? 3)%nat.
    + specialize (IH (S i) (add_tokens self usage)). simpl in IH. lia.
    + simpl. lia.
Qed.

(** The walk does not look past the first provider that returns three
    bullets or more. *)
Lemma walk_ignores_rest (pre post post' : list string) (id : string)
    (i : nat) (self : MultiProviderSummarizer)
    (provider : AIProvider) (prompt : string) (bullets : list string)
    (usage : gmap string Z) :
  (∀ j pid, pre !! j = Some pid →
     ∃ p, registry self !! pid = Some p ∧
          ∀ prompt, soft_failure
            (summarize_async (i + j) p a prompt
               (max_tokens_per_summary self) (summarization_temperature self))) →
  registry self !! id = Some provider →
  _create_prompt str_format self a audience topic = Ok prompt →
  summarize_async (i + length pre) provider a prompt
    (max_tokens_per_summary self) (summarization_temperature self)
  = Ok (bullets, usage) →
  3 ≤ length bullets →
  walk str_format summarize_async a audience topic i (pre ++ id :: post) self
  = walk str_format summarize_async a audience topic i (pre ++ id :: post') self.
Proof.
  revert i self. induction pre as [|pid pre IH];
    intros i self Hpre Hp Hprompt Hreply Hlen.
  - cbn [app walk length] in *. rewrite Nat.add_0_r in Hreply.
    unfold get_provider. rewrite Hp, Hprompt, Hreply.
    by apply Nat.ltb_ge in Hlen as ->.
  - destruct (Hpre 0 pid eq_refl) as (p & Hpp & Hsoft).
    rewrite Nat.add_0_r in Hsoft.
    assert (∀ self1, same_setup self self1 →
              walk str_format summarize_async a audience topic (S i)
                (pre ++ id :: post) self1
              = walk str_format summarize_async a audience topic (S i)
                  (pre ++ id :: post') self1) as Hnext.
    { intros self1 Hsame.
      pose proof (create_prompt_same_setup str_format a audience topic
                    _ _ Hsame) as Hcp.
      destruct Hsame as (Hr & _ & _ & Hm & Ht).
      apply IH.
      - intros j pid' Hj. destruct (Hpre (S j) pid' Hj) as (p' & Hp' & Hs').
        exists p'. rewrite Hr, Hm, Ht. split; [done|]. intros prompt'.
        specialize (Hs' prompt'). by rewrite Nat.add_succ_r in Hs'.
      - by rewrite Hr.
      - by rewrite Hcp.
      - rewrite Hm, Ht. cbn [length] in Hreply.
        by rewrite Nat.add_succ_r in Hreply.
      - done. }
    cbn [app walk]. unfold get_provider. rewrite Hpp.
    destruct (_create_prompt str_format self a audience topic) as [prompt'|e];
      [|apply Hnext, same_setup_refl].
    specialize (Hsoft prompt').
    destruct (summarize_async i p a prompt' _ _) as [[bullets' usage']|e];
      [|apply Hnext, same_setup_refl].
    simpl in Hsoft. apply Nat.ltb_lt in Hsoft. rewrite Hsoft.
    apply Hnext. apply same_setup_add_tokens, same_setup_refl.
Qed.
End Walk.

(** X16.  A summarizer whose registry and selector are built from one
    list of configurations returns a summarized article for every
    article, whatever the providers reply: the walk does not raise, and
    the article it returns carries the input article and the audience
    level. *)
Theorem fallback_always_delivers
    (str_format : string → string → string → string → result string)
    (summarize_async : nat → AIProvider → Article → string → Z → float →
                       result (list string * gmap string Z))
    (configs : list ProviderConfig) (strategy : string)
    (self : MultiProviderSummarizer) (a : Article) (audience topic : string) :
  new_registry configs = Ok (registry self) →
  selector self = new_selector configs strategy →
  ∃ s,
    (_summarize_article_with_fallback str_format summarize_async self a
       audience topic).1 = Ok s ∧
    base s = a ∧ audience_level s = audience.
Proof.
  intros Hreg Hsel. unfold _summarize_article_with_fallback.
  destruct (walk_returns str_format summarize_async a audience topic
              (get_provider_chain (selector self)) 0 self)
    as (s & self' & Hw & Hbase & Haud & _).
  - intros id Hid. rewrite Hsel in Hid. by eapply chain_registered.
  - exists s. by rewrite Hw.
Qed.

Lemma fallback_always_delivers_witness :
  ∃ s,
    (_summarize_article_with_fallback plain_format fallback_answers
       the_summarizer gpt_short "cs_student" "ai").1 = Ok s ∧
    base s = gpt_short ∧ audience_level s = "cs_student".
Proof.
  apply (fallback_always_delivers plain_format fallback_answers
           three_providers "priority" the_summarizer gpt_short).
  - vm_compute. reflexivity.
  - reflexivity.
Defined.

(** X17.  When no reply reports a negative number of tokens, a walk
    never lowers the two token totals of the summarizer. *)
Theorem fallback_tokens_grow
    (str_format : string → string → string → string → result string)
    (summarize_async : nat → AIProvider → Article → string → Z → float →
                       result (list string * gmap string Z))
    (self : MultiProviderSummarizer) (a : Article) (audience topic : string) :
  (∀ j p prompt max_tokens temperature bullets usage,
     summarize_async j p a prompt max_tokens temperature = Ok (bullets, usage) →
     (0 <= default 0 (usage !! "input_tokens"))%Z ∧
     (0 <= default 0 (usage !! "output_tokens"))%Z) →
  (total_input_tokens self
   <= total_input_tokens
        (_summarize_article_with_fallback str_format summarize_async self a
           audience topic).2)%Z ∧
  (total_output_tokens self
   <= total_output_tokens
        (_summarize_article_with_fallback str_format summarize_async self a
           audience topic).2)%Z.
Proof. intros Husage. by apply walk_tokens. Qed.

Lemma fallback_tokens_grow_witness :
  (total_input_tokens the_summarizer
   <= total_input_tokens
        (_summarize_article_with_fallback plain_format all_providers_fail
           the_summarizer gpt_short "cs_student" "ai").2)%Z ∧
  (total_output_tokens the_summarizer
   <= total_output_tokens
        (_summarize_article_with_fallback plain_format all_providers_fail
           the_summarizer gpt_short "cs_student" "ai").2)%Z.
Proof.
  apply (fallback_tokens_grow plain_format all_providers_fail the_summarizer
           gpt_short "cs_student" "ai").
  intros j p prompt max_tokens temperature bullets usage.
  unfold all_providers_fail. destruct (provider_backend p); [done|].
  intros [= _ <-]. vm_compute. split; discriminate.
Defined.

(** X18.  Once a provider of the chain returns three bullets or more,
    after providers that all failed softly, the providers behind it are
    not called: the result and the state of the summarizer are the same
    whatever follows it in the chain. *)
Theorem fallback_stops_at_success
    (str_format : string → string → string → string → result string)
    (summarize_async : nat → AIProvider → Article → string → Z → float →
                       result (list string * gmap string Z))
    (self : MultiProviderSummarizer) (a : Article) (audience topic : string)
    (pre post post' : list string) (id : string)
    (provider : AIProvider) (prompt : string) (bullets : list string)
    (usage : gmap string Z) :
  (∀ j pid, pre !! j = Some pid →
     ∃ p, registry self !! pid = Some p ∧
          ∀ prompt, soft_failure
            (summarize_async j p a prompt
               (max_tokens_per_summary self) (summarization_temperature self))) →
  registry self !! id = Some provider →
  _create_prompt str_format self a audience topic = Ok prompt →
  summarize_async (length pre) provider a prompt
    (max_tokens_per_summary self) (summarization_temperature self)
  = Ok (bullets, usage) →
  3 ≤ length bullets →
  walk str_format summarize_async a audience topic 0 (pre ++ id :: post) self
  = walk str_format summarize_async a audience topic 0 (pre ++ id :: post') self.
Proof. intros. by eapply walk_ignores_rest. Qed.

Lemma fallback_stops_at_success_witness :
  walk plain_format fallback_answers gpt_short "cs_student" "ai" 0
    (["anthropic_primary"] ++ "openai_fallback" :: ["anthropic_primary"])
    the_summarizer
  = walk plain_format fallback_answers gpt_short "cs_student" "ai" 0
      (["anthropic_primary"] ++ "openai_fallback" :: ["missing_provider"])
      the_summarizer.
Proof.
  refine (fallback_stops_at_success plain_format fallback_answers the_summarizer
            gpt_short "cs_student" "ai" ["anthropic_primary"]
            ["anthropic_primary"] ["missing_provider"] "openai_fallback"
            _ _ seven_bullets (usage_of 900 120) _ _ _ _ _).
  - intros [|j] pid [= <-].
    eexists. split; [vm_compute; reflexivity|]. intros prompt. exact I.
  - vm_compute. reflexivity.
  - reflexivity.
  - reflexivity.
  - simpl. lia.
Defined.

Lemma substring_length (m : nat) (s : string) :
  String.length (String.substring 0 m s) = Nat.min m (String.length s).
Proof.
  revert s. induction m as [|m IH]; intros [|c s]; simpl; try done.
  by rewrite IH.
Qed.

Lemma substring_prefix (m : nat) (s : string) :
  String.prefix (String.substring 0 m s) s = true.
Proof.
  revert s. induction m as [|m IH]; intros [|c s]; simpl; try done.
  destruct (ascii_dec c c); [apply IH|done].
Qed.

Lemma prefix_refl (s : string) : String.prefix s s = true.
Proof.
  induction s as [|c s IH]; simpl; [done|].
  by destruct (ascii_dec c c).
Qed.

(** X19.  [_create_prompt] raises [KeyError] when the prompts have no
    "beginner" template, even when they have one for the audience level.
    Otherwise it formats the template of the audience level, or the
    "beginner" template when there is none, with the topic, the title and
    the content clipped to its first 3000 characters. *)
Theorem create_prompt_clips
    (str_format : string → string → string → string → result string)
    (self : MultiProviderSummarizer) (a : Article) (audience topic : string) :
  match prompts self !! "beginner" with
  | None =>
      _create_prompt str_format self a audience topic
      = Raise (KeyError "beginner")
  | Some fallback =>
      ∃ clipped,
        _create_prompt str_format self a audience topic
        = str_format (default fallback (prompts self !! audience)) topic
                     (title a) clipped ∧
        String.length clipped = Nat.min 3000 (String.length (content a)) ∧
        String.prefix clipped (content a) = true
  end.
Proof.
  unfold _create_prompt. destruct (prompts self !! "beginner") as [fallback|];
    [|done].
  destruct (Nat.ltb_spec 3000 (String.length (content a))) as [Hlong|Hshort].
  - eexists. split; [done|]. split; [apply substring_length|apply substring_prefix].
  - eexists. split; [done|]. split; [lia|apply prefix_refl].
Qed.

End SummarizerMore.

(** ** More on the two passes *)

Module DedupPasses.
Import Dedup Readings Scenarios DedupFacts.

(** X21.  The URL pass loses no url, and running it on its own output
    changes nothing. *)
Theorem url_pass_idempotent (articles : list Article) :
  (∀ a, a ∈ articles → url a ∈ url <$> _deduplicate_by_url articles) ∧
  _deduplicate_by_url (_deduplicate_by_url articles)
  = _deduplicate_by_url articles.
Proof.
  split.
  - intros a Ha.
    pose proof (first_seen_head articles ∅ (url a)) as Hhead.
    rewrite decide_False in Hhead by apply not_elem_of_empty.
    destruct (head (filter (λ b, url b = url a) articles)) as [b|] eqn:Hb.
    + rewrite url_pass_first_seen.
      apply head_Some_elem_of, list_elem_of_filter in Hhead as [<- Hin].
      by apply list_elem_of_fmap_2.
    + apply head_None in Hb.
      assert (a ∈ filter (λ b, url b = url a) articles) as Hin
        by (by apply list_elem_of_filter).
      rewrite Hb in Hin. by apply elem_of_nil in Hin.
  - rewrite (url_pass_first_seen (_deduplicate_by_url articles)).
    apply first_seen_id; [apply url_pass_invariant_NoDup|].
    intros a _. apply not_elem_of_empty.
Qed.

Section Cluster.
Variable fuzz_ratio : string → string → Z.
Variable self : Deduplicator.

(** While every candidate is similar to the one accepted article, the
    title pass holds one article: the earliest published so far, the
    first of them on a tie. *)
Lemma title_fold_cluster (rest : list Article) (m : Article) :
  (∀ x y, x ∈ m :: rest → y ∈ m :: rest →
     (similarity_threshold self
      < fuzz_ratio (lower (title y)) (lower (title x)))%Z) →
  ∃ e,
    fold_left (title_step fuzz_ratio self) rest [m] = [e] ∧
    e ∈ m :: rest ∧
    ∀ b, b ∈ m :: rest → (published_at e <= published_at b)%Z.
Proof.
  revert m. induction rest as [|b rest IH]; intros m Hsim.
  - exists m. split; [done|]. split; [left|].
    intros b ->%list_elem_of_singleton. lia.
  - cbn [fold_left]. unfold title_step at 2. cbn [first_similar].
    assert ((similarity_threshold self
             <? fuzz_ratio (lower (title b)) (lower (title m)))%Z = true) as ->.
    { apply Z.ltb_lt, Hsim; [left|right; left]. }
    destruct (Z.ltb_spec (published_at b) (published_at m)) as [Hlt|Hge].
    + cbn [list_remove]. unfold article_eq.
      rewrite bool_decide_eq_true_2 by done. cbn [app].
      destruct (IH b) as (e & -> & He & Hmin).
      { intros x y Hx Hy. apply Hsim; by right. }
      exists e. split; [done|]. split; [by right|].
      intros c [->|Hc]%elem_of_cons; [|by apply Hmin].
      specialize (Hmin b). pose proof (Hmin ltac:(left)). lia.
    + destruct (IH m) as (e & -> & He & Hmin).
      { intros x y Hx Hy.
        apply Hsim.
        - apply elem_of_cons in Hx as [->|Hx]; [left|right; by right].
        - apply elem_of_cons in Hy as [->|Hy]; [left|right; by right]. }
      exists e. split; [done|]. split.
      * apply elem_of_cons in He as [->|He]; [left|right; by right].
      * intros c [->|[->|Hc]%elem_of_cons]%elem_of_cons.
        -- apply Hmin. left.
        -- specialize (Hmin m ltac:(left)). lia.
        -- apply Hmin. by right.
Qed.

(** X22.  When the titles of a non-empty input are all above the
    threshold against one another, the title pass returns one article of
    the input, and none of the input was published before it. *)
Theorem title_pass_cluster (articles : list Article) :
  articles ≠ [] →
  (∀ x y, x ∈ articles → y ∈ articles →
     (similarity_threshold self
      < fuzz_ratio (lower (title y)) (lower (title x)))%Z) →
  ∃ e,
    _deduplicate_by_title fuzz_ratio self articles = [e] ∧
    e ∈ articles ∧
    ∀ b, b ∈ articles → (published_at e <= published_at b)%Z.
Proof.
  intros Hne Hsim. destruct articles as [|m rest]; [done|].
  unfold _deduplicate_by_title. cbn [fold_left].
  unfold title_step at 2. cbn [first_similar app].
  by apply title_fold_cluster.
Qed.
End Cluster.

Lemma title_pass_cluster_witness :
  ∃ e,
    _deduplicate_by_title Fuzz.ratio no_history
      [breaking_2; breaking_1; breaking_2_same_url] = [e] ∧
    e ∈ [breaking_2; breaking_1; breaking_2_same_url] ∧
    ∀ b, b ∈ [breaking_2; breaking_1; breaking_2_same_url] →
         (published_at e <= published_at b)%Z.
Proof.
  apply (title_pass_cluster Fuzz.ratio no_history
           [breaking_2; breaking_1; breaking_2_same_url]).
  - discriminate.
  - intros x y Hx Hy.
    assert (∀ z, z ∈ [breaking_2; breaking_1; breaking_2_same_url] →
                 title z = "Breaking News") as Ht.
    { intros z Hz. repeat (apply elem_of_cons in Hz as [->|Hz]); try done.
      by apply elem_of_nil in Hz. }
    rewrite (Ht x Hx), (Ht y Hy). vm_compute. reflexivity.
Defined.

End DedupPasses.
